(** * Identity store and host registry of the id server

    A shallow embedding of [core/src/model/hosts.ts] (class [Hosts]) and of
    the [Users] model class that follows it in the same source file, with the
    properties of the written specification stated and proved over it.

    Conventions.
    - A relational table is the list of its rows, in the order in which the
      database hands them back; [rows[0]] is the head of a result list.
    - SQL [NULL] and JavaScript [null] are [None].
    - SQL integers and JavaScript numbers that hold row identifiers, UIDs and
      counters are [Z]; timestamps are [Z] too (milliseconds).
    - An [async] method is a computation in the monad [M]: it reads and writes
      the world (the [Users] object and the transaction) and either returns a
      value or throws.  The world reached when a method throws is kept, since
      a JavaScript exception does not undo assignments made before it.
    - Code that is not in this source file (the transaction class, the
      permission model, [schema.sql], the crypto packages) enters as a
      parameter. *)

From Stdlib Require Import List ZArith NArith Lia Bool String Ascii Sorted.
Import ListNotations.

Local Open Scope string_scope.
Local Open Scope list_scope.
Local Open Scope Z_scope.

Set Implicit Arguments.

(* ================================================================== *)
(** ** Errors and results *)

(** The error classes imported from [./errors], and the two kinds of failure
    that come from outside the model classes: an [Error]/[TypeError] thrown by
    JavaScript code or by a package ([JsError]), and a statement the database
    refuses ([DbError]). *)
Inductive error : Type :=
| NoSuchEntryError
| AuthenticationError
| NotActivatedError
| ExpiredTokenError
| AuthorizationError
| JsError (message : string)
| DbError.

Inductive result (A : Type) : Type :=
| Ok (a : A)
| Err (e : error).

Arguments Ok {A} a.
Arguments Err {A} e.

(* ================================================================== *)
(** ** Rows of the tables *)

(** [type Language = 'ko' | 'en'] *)
Inductive Language : Type := ko | en.

(** A row of [users].  [username], [uid] and [shell] may be [NULL]; the
    method [userToPosixAccount] tests [username] and [shell] against [null]
    at run time. *)
Record UserRow : Type := mkUserRow {
  u_idx : Z;
  u_username : option string;
  u_password_digest : string;
  u_name : string;
  u_uid : option Z;
  u_shell : option string;
  u_preferred_language : Language;
  u_activated : bool;
  u_last_login_at : option Z
}.

(** The row object of a [SELECT] on [users] as [rowToUser] reads it; a
    column the statement does not select is [undefined] ([None]). *)
Record SelectedUser : Type := mkSelectedUser {
  row_idx : Z;
  row_username : option string;
  row_name : string;
  row_uid : option Z;
  row_shell : option string;
  row_preferred_language : option Language
}.

(** [interface User] *)
Record User : Type := mkUser {
  idx : Z;
  username : option string;
  name : string;
  uid : option Z;
  shell : option string;
  preferredLanguage : option Language
}.

(** A row of [password_change_tokens]. *)
Record TokenRow : Type := mkTokenRow {
  t_idx : Z;
  t_user_idx : Z;
  t_token : string;
  t_expires : Z;
  t_resend_count : Z
}.

(** A row of [email_addresses]. *)
Record EmailRow : Type := mkEmailRow {
  e_idx : Z;
  e_owner_idx : option Z;
  e_address_local : string;
  e_address_domain : string
}.

(** [interface Host] and [interface HostGroup]. *)
Record Host : Type := mkHost {
  h_idx : Z;
  h_name : string;
  h_host : string;
  hostGroupIdx : option Z
}.

Record HostGroup : Type := mkHostGroup {
  hg_idx : Z;
  hg_name : string;
  requiredPermissionIdx : option Z
}.

(** Rows of [hosts] and [host_groups]. *)
Record HostRow : Type := mkHostRow {
  hr_idx : Z;
  hr_name : string;
  hr_host : string;
  hr_host_group : option Z
}.

Record HostGroupRow : Type := mkHostGroupRow {
  gr_idx : Z;
  gr_name : string;
  gr_required_permission : option Z
}.

Record Database : Type := mkDatabase {
  users : list UserRow;
  users_idx_seq : Z;
  password_change_tokens : list TokenRow;
  password_change_tokens_idx_seq : Z;
  email_addresses : list EmailRow;
  hosts : list HostRow;
  host_groups : list HostGroupRow
}.

Definition set_users (d : Database) (us : list UserRow) : Database :=
  mkDatabase us (users_idx_seq d) (password_change_tokens d)
    (password_change_tokens_idx_seq d) (email_addresses d) (hosts d)
    (host_groups d).

Definition set_users_idx_seq (d : Database) (n : Z) : Database :=
  mkDatabase (users d) n (password_change_tokens d)
    (password_change_tokens_idx_seq d) (email_addresses d) (hosts d)
    (host_groups d).

Definition set_password_change_tokens (d : Database) (ts : list TokenRow)
  : Database :=
  mkDatabase (users d) (users_idx_seq d) ts
    (password_change_tokens_idx_seq d) (email_addresses d) (hosts d)
    (host_groups d).

Definition set_password_change_tokens_idx_seq (d : Database) (n : Z)
  : Database :=
  mkDatabase (users d) (users_idx_seq d) (password_change_tokens d) n
    (email_addresses d) (hosts d) (host_groups d).

(* ================================================================== *)
(** ** The transaction, the [Users] object and the world *)

(** The statements this file issues through [tr.query], one name per SQL
    text.  The transaction records them in issue order. *)
Inductive Sql : Type :=
| SqlInsertUser
| SqlDeleteUser
| SqlSelectAllUsers
| SqlSelectEmailOwner
| SqlSelectUserForAuthentication
| SqlUpdateLastLoginAt
| SqlActivate
| SqlDeactivate
| SqlGapScan
| SqlUpsertPasswordChangeToken
| SqlResetResendCount
| SqlSelectResendCount
| SqlUpdatePasswordDigest
| SqlUpdateShell
| SqlSelectHostGroup.

(** A transaction: the database as this transaction sees it, the tables it
    holds in ACCESS EXCLUSIVE mode, the value of SQL [now()] (the start of
    the transaction) and the statements issued so far. *)
Record Transaction : Type := mkTransaction {
  tr_db : Database;
  tr_locks : list string;
  tr_now : Z;
  tr_issued : list Sql
}.

(** One directory entry, [ldap.SearchEntry<PosixAccount>]. *)
Record PosixAccount : Type := mkPosixAccount {
  pa_uid : string;
  pa_cn : string;
  pa_gecos : string;
  pa_homeDirectory : string;
  pa_loginShell : string;
  pa_objectClass : list string;
  pa_uidNumber : option Z;
  pa_gidNumber : Z
}.

Record SearchEntry : Type := mkSearchEntry {
  dn : string;
  attributes : PosixAccount
}.

(** The mutable and read-only fields of a [Users] instance. *)
Record Users : Type := mkUsers {
  usersDN : string;
  posixAccountsCache : option (list SearchEntry)
}.

Record World : Type := mkWorld {
  this : Users;
  tr : Transaction
}.

Definition set_cache (w : World) (c : option (list SearchEntry)) : World :=
  mkWorld (mkUsers (usersDN (this w)) c) (tr w).

Definition db (w : World) : Database := tr_db (tr w).

(* ================================================================== *)
(** ** The monad of methods *)

Definition M (A : Type) : Type := World -> result A * World.

Definition ret {A} (a : A) : M A := fun w => (Ok a, w).

Definition throw {A} (e : error) : M A := fun w => (Err e, w).

Definition bind {A B} (m : M A) (k : A -> M B) : M B :=
  fun w =>
    match m w with
    | (Ok a, w') => k a w'
    | (Err e, w') => (Err e, w')
    end.

(** The world as it stands: [this] and [tr] are in scope in every method. *)
Definition get : M World := fun w => (Ok w, w).

(** [try { m } catch (e) { h e }] *)
Definition try_catch {A} (m : M A) (h : error -> M A) : M A :=
  fun w =>
    match m w with
    | (Ok a, w') => (Ok a, w')
    | (Err e, w') => h e w'
    end.

Declare Scope method_scope.
Delimit Scope method_scope with method.
Notation "x <- m ;; k" := (bind m (fun x => k))
  (at level 100, m at next level, right associativity) : method_scope.
Notation "m ;; k" := (bind m (fun _ => k))
  (at level 100, right associativity) : method_scope.
Local Open Scope method_scope.

(** [tr.query(q, ...)]: the statement is recorded, then run on the
    database.  A statement the database refuses throws and changes no
    table. *)
Definition query {A} (q : Sql) (run : Transaction -> result (A * Database))
  : M A :=
  fun w =>
    let t := tr w in
    let issued := tr_issued t ++ [q] in
    match run t with
    | Ok (a, d) =>
        (Ok a, mkWorld (this w) (mkTransaction d (tr_locks t) (tr_now t) issued))
    | Err e =>
        (Err e,
         mkWorld (this w)
           (mkTransaction (tr_db t) (tr_locks t) (tr_now t) issued))
    end.

(** A synchronous call that may throw, inside a method. *)
Definition lift {A} (r : result A) : M A := fun w => (r, w).

(** [this.posixAccountsCache = c] *)
Definition assign_posixAccountsCache (c : option (list SearchEntry)) : M unit :=
  fun w => (Ok tt, set_cache w c).

(* ================================================================== *)
(** ** SQL building blocks *)

(** Comparisons under SQL's three-valued logic, as a [WHERE] or [ON] clause
    reads them: a comparison with [NULL] is not true. *)
Definition sql_eq (x y : option Z) : bool :=
  match x, y with
  | Some a, Some b => a =? b
  | _, _ => false
  end.

Definition sql_ge (x y : option Z) : bool :=
  match x, y with
  | Some a, Some b => b <=? a
  | _, _ => false
  end.

Definition sql_plus (x y : option Z) : option Z :=
  match x, y with
  | Some a, Some b => Some (a + b)
  | _, _ => None
  end.

Definition sql_is_null {A} (x : option A) : bool :=
  match x with
  | None => true
  | Some _ => false
  end.

(** [la AS a RIGHT OUTER JOIN lb AS b ON on a b]: every row of [lb] with each
    row of [la] it matches, or once with a row of [NULL]s when it matches
    none. *)
Definition right_outer_join {A B} (on : A -> B -> bool)
    (la : list A) (lb : list B) : list (option A * B) :=
  flat_map
    (fun b =>
       match filter (fun a => on a b) la with
       | [] => [(None, b)]
       | matched => map (fun a => (Some a, b)) matched
       end)
    lb.

(** [ORDER BY key] ascending, [NULL]s last: a stable insertion sort. *)
Definition key_le (x y : option Z) : bool :=
  match x, y with
  | Some a, Some b => a <=? b
  | Some _, None => true
  | None, Some _ => false
  | None, None => true
  end.

Fixpoint insert_by {A} (key : A -> option Z) (x : A) (l : list A) : list A :=
  match l with
  | [] => [x]
  | y :: l' =>
      if key_le (key x) (key y) then x :: y :: l'
      else y :: insert_by key x l'
  end.

Definition order_by {A} (key : A -> option Z) (l : list A) : list A :=
  fold_right (insert_by key) [] l.

(** [LIMIT n] *)
Definition limit {A} (n : nat) (l : list A) : list A := firstn n l.

(** A column of a row of the outer side of a join: [NULL] on the row of
    [NULL]s. *)
Definition column {A B} (f : A -> option B) (a : option A) : option B :=
  match a with
  | Some r => f r
  | None => None
  end.

(* ================================================================== *)
(** ** Configuration *)

Record LdapConfig : Type := mkLdapConfig {
  usersOU : string;
  baseDN : string
}.

Record PosixConfig : Type := mkPosixConfig {
  minUid : Z;
  homeDirectoryPrefix : string;
  userGroupGid : Z
}.

Record Config : Type := mkConfig {
  ldap : LdapConfig;
  posix : PosixConfig
}.

(* ================================================================== *)
(** ** JavaScript strings, buffers and the crypto packages *)

(** A password is a JavaScript string: a sequence of UTF-16 code units.
    (Text whose characters play no part, such as user names, digests and DNs,
    is a [string].)  A buffer is a sequence of bytes. *)
Definition JsString : Type := list N.
Definition Buffer : Type := list N.

Local Open Scope N_scope.

Definition is_high_surrogate (c : N) : bool := (0xD800 <=? c) && (c <=? 0xDBFF).
Definition is_low_surrogate (c : N) : bool := (0xDC00 <=? c) && (c <=? 0xDFFF).

(** [[...s]]: the string iterator yields one string per code point; a
    surrogate pair stays together, any other code unit comes alone. *)
Fixpoint spread (s : JsString) : list JsString :=
  match s with
  | [] => []
  | c :: s' =>
      match s' with
      | d :: s'' =>
          if is_high_surrogate c && is_low_surrogate d
          then [c; d] :: spread s''
          else [c] :: spread s'
      | [] => [[c]]
      end
  end.

(** [parts.join('')] *)
Definition join (parts : list JsString) : JsString := List.concat parts.

(** UTF-8 of one code point. *)
Definition utf8_of_code_point (cp : N) : Buffer :=
  if cp <? 0x80 then [cp]
  else if cp <? 0x800 then
    [N.lor 0xC0 (N.shiftr cp 6); N.lor 0x80 (N.land cp 0x3F)]
  else if cp <? 0x10000 then
    [N.lor 0xE0 (N.shiftr cp 12);
     N.lor 0x80 (N.land (N.shiftr cp 6) 0x3F);
     N.lor 0x80 (N.land cp 0x3F)]
  else
    [N.lor 0xF0 (N.shiftr cp 18);
     N.lor 0x80 (N.land (N.shiftr cp 12) 0x3F);
     N.lor 0x80 (N.land (N.shiftr cp 6) 0x3F);
     N.lor 0x80 (N.land cp 0x3F)].

(** The bytes of U+FFFD, written for a surrogate that has no partner. *)
Definition replacement_character : Buffer := [0xEF; 0xBF; 0xBD].

(** [Buffer.from(s)]: the UTF-8 encoding of the string. *)
Fixpoint Buffer_from (s : JsString) : Buffer :=
  match s with
  | [] => []
  | c :: s' =>
      if is_high_surrogate c then
        match s' with
        | d :: s'' =>
            if is_low_surrogate d
            then utf8_of_code_point
                   (0x10000 + (c - 0xD800) * 0x400 + (d - 0xDC00))
                 ++ Buffer_from s''
            else replacement_character ++ Buffer_from s'
        | [] => replacement_character
        end
      else if is_low_surrogate c then replacement_character ++ Buffer_from s'
      else utf8_of_code_point c ++ Buffer_from s'
  end.

(** [a.equals(b)] on buffers: the same bytes in the same order. *)
Fixpoint Buffer_equals (a b : Buffer) : bool :=
  match a, b with
  | [], [] => true
  | x :: a', y :: b' => (x =? y) && Buffer_equals a' b'
  | _, _ => false
  end.

(** [buf.toString('hex')] *)
Definition hex_digit (n : N) : ascii :=
  if n <? 10 then ascii_of_N (48 + n) else ascii_of_N (87 + n).

Fixpoint toString_hex (b : Buffer) : string :=
  match b with
  | [] => EmptyString
  | x :: b' =>
      String (hex_digit (N.shiftr x 4))
        (String (hex_digit (N.land x 0xF)) (toString_hex b'))
  end.

Local Close Scope N_scope.

(** What [phc.deserialize] returns; [salt] and [hash] are [undefined] when
    the encoded digest has no such part. *)
Record PhcObject : Type := mkPhcObject {
  phc_id : string;
  phc_salt : option Buffer;
  phc_hash : option Buffer
}.

(** The packages [argon2], [@phc/format] and [crypto].  [argon2.hash] draws
    a fresh salt on each call; the salt is an argument here. *)
Class Crypto : Type := {
  argon2_hash : Buffer -> JsString -> string;
  argon2_verify : string -> JsString -> result bool;
  phc_deserialize : string -> result PhcObject;
  sha1 : Buffer -> Buffer;
  sha512 : Buffer -> Buffer
}.

(** A [crypto.Hash] object: the primitive chosen by [createHash] and the
    data fed to it so far. *)
Record Hash : Type := mkHash {
  hash_primitive : Buffer -> Buffer;
  hash_data : Buffer
}.

Definition createHash `{Crypto} (algorithm : string) : Hash :=
  mkHash (if String.eqb algorithm "sha1" then sha1 else sha512) [].

(** [hash.update(data)]; a [TypeError] when [data] is [undefined]. *)
Definition hash_update (h : Hash) (data : option Buffer) : result Hash :=
  match data with
  | Some b => Ok (mkHash (hash_primitive h) (hash_data h ++ b))
  | None => Err (JsError "TypeError")
  end.

Definition hash_digest (h : Hash) : Buffer := hash_primitive h (hash_data h).

(** [buf.equals(other)]; a [TypeError] when [other] is [undefined]. *)
Definition equals (buf : Buffer) (other : option Buffer) : result bool :=
  match other with
  | Some b => Ok (Buffer_equals buf b)
  | None => Err (JsError "TypeError")
  end.

(** [array.includes(x)] on an array of strings. *)
Definition includes (array : list string) (x : string) : bool :=
  existsb (String.eqb x) array.

(** What [schema.sql] fixes and the methods rely on: the defaults of the
    columns an [INSERT] leaves out, and the constraints a new row of [users]
    has to meet. *)
Record Schema : Type := mkSchema {
  default_activated : bool;
  default_last_login_at : option Z;
  default_resend_count : Z;
  users_constraints : list UserRow -> UserRow -> bool
}.

(* ================================================================== *)
(** ** The model classes *)

Section Model.

(** [this.model.config] *)
Variable config : Config.

Context {crypto : Crypto}.

Variable schema : Schema.

(** [tr.ensureHasAccessExclusiveLock(table)], a method of the transaction
    class.  The caller does not await it: it returns or throws at once. *)
Variable ensureHasAccessExclusiveLock : Transaction -> string -> result unit.

(** [this.model.permissions.checkUserHavePermission(tr, userIdx, idx)] *)
Variable checkUserHavePermission : Z -> Z -> M bool.

(** SQL [LOWER]. *)
Variable LOWER : string -> string.

(** [posixAccountObjectClass] of [../ldap/types]. *)
Variable posixAccountObjectClass : list string.

(* ---------------------------------------------------------------- *)
(** *** class Hosts *)

Definition rowToHost (row : HostRow) : Host :=
  mkHost (hr_idx row) (hr_name row) (hr_host row) (hr_host_group row).

Definition rowToHostGroup (row : HostGroupRow) : HostGroup :=
  mkHostGroup (gr_idx row) (gr_name row) (gr_required_permission row).

(** [SELECT idx, name, required_permission FROM host_groups
     WHERE idx = $1] *)
Definition getHostGroupByIdx (hostGroupIdx : Z) : M HostGroup :=
  rows <- query SqlSelectHostGroup
            (fun t =>
               Ok (filter (fun g => gr_idx g =? hostGroupIdx)
                     (host_groups (tr_db t)),
                   tr_db t)) ;;
  match rows with
  | [] => throw NoSuchEntryError
  | row :: _ => ret (rowToHostGroup row)
  end.

Definition authorizeUserByHost (userIdx : Z) (host : Host) : M unit :=
  match hostGroupIdx host with
  | None => ret tt
  | Some groupIdx =>
      hostGroup <- getHostGroupByIdx groupIdx ;;
      match requiredPermissionIdx hostGroup with
      | None => ret tt
      | Some permissionIdx =>
          havePermission <- checkUserHavePermission userIdx permissionIdx ;;
          if negb havePermission then throw AuthorizationError else ret tt
      end
  end.

(* ---------------------------------------------------------------- *)
(** *** class Users: the constructor *)

Definition constructor : Users :=
  mkUsers
    ("ou=" ++ usersOU (ldap config) ++ "," ++ baseDN (ldap config))%string
    None.

(* ---------------------------------------------------------------- *)
(** *** class Users: UID allocation *)

(** [SELECT b.uid + 1 AS uid
     FROM users AS a RIGHT OUTER JOIN users AS b ON a.uid = b.uid + 1
     WHERE a.uid IS NULL AND b.uid + 1 >= $1
     ORDER BY b.uid LIMIT 1] *)
Definition gap_on (a b : UserRow) : bool :=
  sql_eq (u_uid a) (sql_plus (u_uid b) (Some 1)).

Definition gap_where (floor : Z) (ab : option UserRow * UserRow) : bool :=
  sql_is_null (column u_uid (fst ab))
  && sql_ge (sql_plus (u_uid (snd ab)) (Some 1)) (Some floor).

Definition gap_selected (us : list UserRow) (floor : Z)
  : list (option UserRow * UserRow) :=
  filter (gap_where floor) (right_outer_join gap_on us us).

Definition gap_scan (us : list UserRow) (floor : Z) : list (option Z) :=
  map (fun ab => sql_plus (u_uid (snd ab)) (Some 1))
    (limit 1 (order_by (fun ab => u_uid (snd ab)) (gap_selected us floor))).

(** The value returned is what the driver puts in [rows[0].uid]: a number,
    or [null] were the column [NULL]. *)
Definition generateUid : M (option Z) :=
  w <- get ;;
  lift (ensureHasAccessExclusiveLock (tr w) "users") ;;
  let minUid := minUid (posix config) in
  getNewUidResult <- query SqlGapScan
                       (fun t => Ok (gap_scan (users (tr_db t)) minUid,
                                     tr_db t)) ;;
  match getNewUidResult with
  | row :: _ => ret row
  | [] => ret (Some minUid)
  end.

(* ---------------------------------------------------------------- *)
(** *** class Users: rows that match a key *)

Definition has_idx (userIdx : Z) (u : UserRow) : bool := u_idx u =? userIdx.

(** [username = $1]; a [NULL] user name equals nothing. *)
Definition has_username (username : string) (u : UserRow) : bool :=
  match u_username u with
  | Some n => String.eqb n username
  | None => false
  end.

(** [UPDATE users SET ... WHERE idx = $1]: [set] on every row with that
    [idx], the others as they are. *)
Definition updated (userIdx : Z) (set : UserRow -> UserRow) (u : UserRow)
  : UserRow :=
  if has_idx userIdx u then set u else u.

Definition update_users (userIdx : Z) (set : UserRow -> UserRow)
    (d : Database) : Database :=
  set_users d (map (updated userIdx set) (users d)).

Definition set_last_login_at (at_ : option Z) (u : UserRow) : UserRow :=
  mkUserRow (u_idx u) (u_username u) (u_password_digest u) (u_name u)
    (u_uid u) (u_shell u) (u_preferred_language u) (u_activated u) at_.

Definition set_activated (b : bool) (u : UserRow) : UserRow :=
  mkUserRow (u_idx u) (u_username u) (u_password_digest u) (u_name u)
    (u_uid u) (u_shell u) (u_preferred_language u) b (u_last_login_at u).

Definition set_password_digest (digest : string) (u : UserRow) : UserRow :=
  mkUserRow (u_idx u) (u_username u) digest (u_name u)
    (u_uid u) (u_shell u) (u_preferred_language u) (u_activated u)
    (u_last_login_at u).

Definition set_shell (shell : string) (u : UserRow) : UserRow :=
  mkUserRow (u_idx u) (u_username u) (u_password_digest u) (u_name u)
    (u_uid u) (Some shell) (u_preferred_language u) (u_activated u)
    (u_last_login_at u).

(** [... RETURNING idx]: the [idx] of every row the statement touched. *)
Definition returning_idx (userIdx : Z) (d : Database) : list Z :=
  map u_idx (filter (has_idx userIdx) (users d)).

(* ---------------------------------------------------------------- *)
(** *** class Users: account life cycle *)

(** [INSERT INTO users(username, password_digest, name, uid, shell,
     preferred_language) VALUES ($1, $2, $3, $4, $5, $6) RETURNING idx].
    [idx] comes from the sequence of the table. *)
Definition insert_user (username passwordDigest name : string)
    (uid : option Z) (shell : string) (preferredLanguage : Language)
    (t : Transaction) : result (list Z * Database) :=
  let d := tr_db t in
  let idx := users_idx_seq d in
  let row :=
    mkUserRow idx (Some username) passwordDigest name uid (Some shell)
      preferredLanguage (default_activated schema)
      (default_last_login_at schema) in
  if users_constraints schema (users d) row
  then Ok ([idx], set_users (set_users_idx_seq d (idx + 1)) (users d ++ [row]))
  else Err DbError.

Definition create (salt : Buffer) (username : string) (password : JsString)
    (name shell : string) (preferredLanguage : Language) : M Z :=
  let passwordDigest := argon2_hash salt password in
  uid <- generateUid ;;
  result <- query SqlInsertUser
              (insert_user username passwordDigest name uid shell
                 preferredLanguage) ;;
  assign_posixAccountsCache None ;;
  match result with
  | idx :: _ => ret idx
  | [] => throw (JsError "TypeError")
  end.

(** [DELETE FROM users WHERE idx = $1 RETURNING idx] *)
Definition delete (userIdx : Z) : M Z :=
  result <- query SqlDeleteUser
              (fun t =>
                 let d := tr_db t in
                 Ok (returning_idx userIdx d,
                     set_users d
                       (filter (fun u => negb (has_idx userIdx u))
                          (users d)))) ;;
  match result with
  | [] => throw NoSuchEntryError
  | idx :: _ => assign_posixAccountsCache None ;; ret idx
  end.

(** [UPDATE users SET last_login_at = NOW() WHERE idx = $1] *)
Definition updateLastLoginAt (userIdx : Z) : M unit :=
  query SqlUpdateLastLoginAt
    (fun t =>
       Ok (tt,
           update_users userIdx (set_last_login_at (Some (tr_now t)))
             (tr_db t))).

(** [UPDATE users SET activated = TRUE WHERE idx = $1] *)
Definition activate (userIdx : Z) : M unit :=
  query SqlActivate
    (fun t => Ok (tt, update_users userIdx (set_activated true) (tr_db t))).

(** [UPDATE users SET activated = FALSE WHERE idx = $1] *)
Definition deactivate (userIdx : Z) : M unit :=
  query SqlDeactivate
    (fun t => Ok (tt, update_users userIdx (set_activated false) (tr_db t))).

(** [UPDATE users SET password_digest = $1 WHERE idx = $2 RETURNING idx] *)
Definition changePassword (salt : Buffer) (userIdx : Z)
    (newPassword : JsString) : M Z :=
  let passwordDigest := argon2_hash salt newPassword in
  result <- query SqlUpdatePasswordDigest
              (fun t =>
                 Ok (returning_idx userIdx (tr_db t),
                     update_users userIdx
                       (set_password_digest passwordDigest) (tr_db t))) ;;
  match result with
  | [] => throw NoSuchEntryError
  | idx :: _ => ret idx
  end.

(** [UPDATE users SET shell = $1 WHERE idx = $2 RETURNING idx] *)
Definition changeShell (userIdx : Z) (shell : string) : M Z :=
  result <- query SqlUpdateShell
              (fun t =>
                 Ok (returning_idx userIdx (tr_db t),
                     update_users userIdx (set_shell shell) (tr_db t))) ;;
  match result with
  | [] => throw NoSuchEntryError
  | idx :: _ => assign_posixAccountsCache None ;; ret idx
  end.

(* ---------------------------------------------------------------- *)
(** *** class Users: authentication *)



Definition legacy_ids : list string := ["mssql-sha1"; "mssql-sha512"].

(** [Buffer.from([...password].map(x => x + '\u0000').join(''))] *)
Definition nullAppendedPassword (password : JsString) : Buffer :=
  Buffer_from (join (map (fun x => x ++ [0%N]) (spread password))).

(** [SELECT idx, password_digest, activated FROM users
     WHERE username = $1].  [salt] is the salt [argon2.hash] draws if the
    digest is migrated. *)
Definition authenticate (salt : Buffer) (username : string)
    (password : JsString) : M Z :=
  result <- query SqlSelectUserForAuthentication
              (fun t =>
                 Ok (filter (has_username username) (users (tr_db t)),
                     tr_db t)) ;;
  match result with
  | [] => throw NoSuchEntryError
  | row :: _ =>
      if negb (u_activated row) then throw NotActivatedError
      else
        let idx := u_idx row in
        let passwordDigest := u_password_digest row in
        phcObject <- lift (phc_deserialize passwordDigest) ;;
        (if includes legacy_ids (phc_id phcObject) then
           let hash :=
             createHash
               (if String.eqb (phc_id phcObject) "mssql-sha1"
                then "sha1" else "sha512") in
           hash <- lift (hash_update hash
                           (Some (nullAppendedPassword password))) ;;
           hash <- lift (hash_update hash (phc_salt phcObject)) ;;
           same <- lift (equals (hash_digest hash) (phc_hash phcObject)) ;;
           if negb same then throw AuthenticationError
           else (changePassword salt idx password ;; ret tt)
         else
           verified <- lift (argon2_verify passwordDigest password) ;;
           if negb verified then throw AuthenticationError else ret tt) ;;
        updateLastLoginAt idx ;;
        ret idx
  end.

(* ---------------------------------------------------------------- *)
(** *** class Users: password-change tokens *)

Definition has_user_idx (userIdx : Z) (r : TokenRow) : bool :=
  t_user_idx r =? userIdx.

(** [UPDATE password_change_tokens SET resend_count = 0
     WHERE user_idx = $1 AND expires <= now()] *)
Definition resetResendCountIfExpired (userIdx : Z) : M unit :=
  query SqlResetResendCount
    (fun t =>
       let d := tr_db t in
       Ok (tt,
           set_password_change_tokens d
             (map
                (fun r =>
                   if has_user_idx userIdx r && (t_expires r <=? tr_now t)
                   then mkTokenRow (t_idx r) (t_user_idx r) (t_token r)
                          (t_expires r) 0
                   else r)
                (password_change_tokens d)))).

(** [INSERT INTO password_change_tokens AS p(user_idx, token, expires)
     VALUES ($1, $2, $3)
     ON CONFLICT (user_idx) DO UPDATE
     SET token = $2, resend_count = p.resend_count + 1, expires = $3].
    The default of [idx] is taken from the sequence before the conflict is
    seen. *)
Definition upsert_token (userIdx : Z) (token : string) (expires : Z)
    (t : Transaction) : result (unit * Database) :=
  let d := tr_db t in
  let idx := password_change_tokens_idx_seq d in
  let d' := set_password_change_tokens_idx_seq d (idx + 1) in
  if existsb (has_user_idx userIdx) (password_change_tokens d) then
    Ok (tt,
        set_password_change_tokens d'
          (map
             (fun p =>
                if has_user_idx userIdx p
                then mkTokenRow (t_idx p) (t_user_idx p) token expires
                       (t_resend_count p + 1)
                else p)
             (password_change_tokens d)))
  else
    Ok (tt,
        set_password_change_tokens d'
          (password_change_tokens d
           ++ [mkTokenRow idx userIdx token expires
                 (default_resend_count schema)])).

(** One day, in the unit of the clock (milliseconds). *)
Definition one_day : Z := 86400000.

(** [randomBytes] is what [crypto.randomBytes(32)] delivers and [moment_]
    the time [moment()] reads. *)
Definition generatePasswordChangeToken (randomBytes : Buffer) (moment_ : Z)
    (userIdx : Z) : M string :=
  resetResendCountIfExpired userIdx ;;
  let token := toString_hex randomBytes in
  let expires := moment_ + one_day in
  query SqlUpsertPasswordChangeToken (upsert_token userIdx token expires) ;;
  ret token.

(** [SELECT resend_count FROM password_change_tokens WHERE token = $1] *)
Definition getResendCount (token : string) : M Z :=
  result <- query SqlSelectResendCount
              (fun t =>
                 Ok (filter (fun r => String.eqb (t_token r) token)
                       (password_change_tokens (tr_db t)),
                     tr_db t)) ;;
  match result with
  | [] => throw NoSuchEntryError
  | row :: _ => ret (t_resend_count row)
  end.

(* ---------------------------------------------------------------- *)
(** *** class Users: the directory projection *)

(** [SELECT idx, username, name, uid, shell FROM users]: the row object
    the driver builds has these five properties and no
    [preferred_language]. *)
Definition select_user_columns (u : UserRow) : SelectedUser :=
  mkSelectedUser (u_idx u) (u_username u) (u_name u) (u_uid u) (u_shell u)
    None.

Definition rowToUser (row : SelectedUser) : User :=
  mkUser (row_idx row) (row_username row) (row_name row) (row_uid row)
    (row_shell row) (row_preferred_language row).

Definition getAll : M (list User) :=
  result <- query SqlSelectAllUsers
              (fun t =>
                 Ok (map select_user_columns (users (tr_db t)), tr_db t)) ;;
  ret (map rowToUser result).

Definition userToPosixAccount (user : User) : M SearchEntry :=
  match username user, shell user with
  | Some username, Some shell =>
      w <- get ;;
      ret (mkSearchEntry
             ("cn=" ++ username ++ "," ++ usersDN (this w))%string
             (mkPosixAccount
                username
                username
                (name user)
                (homeDirectoryPrefix (posix config) ++ "/" ++ username)%string
                shell
                posixAccountObjectClass
                (uid user)
                (userGroupGid (posix config))))
  | _, _ => throw (JsError "Cannot convert to posixAccount")
  end.

(** [array.forEach(f)] where [f] updates a local variable. *)
Fixpoint forEach {A S} (array : list A) (f : A -> S -> M S) (s : S) : M S :=
  match array with
  | [] => ret s
  | x :: rest => s' <- f x s ;; forEach rest f s'
  end.

Definition usersToPosixAccounts (users : list User) : M (list SearchEntry) :=
  forEach users
    (fun user posixAccounts =>
       try_catch
         (entry <- userToPosixAccount user ;;
          ret (posixAccounts ++ [entry]))
         (fun e => ret posixAccounts))
    [].

Definition getAllAsPosixAccounts : M (list SearchEntry) :=
  w <- get ;;
  match posixAccountsCache (this w) with
  | None =>
      all <- getAll ;;
      accounts <- usersToPosixAccounts all ;;
      assign_posixAccountsCache (Some accounts) ;;
      ret accounts
  | Some cached => ret cached
  end.

End Model.

(* ================================================================== *)
(** ** Vocabulary of the properties *)

(** The UIDs in use: the non-[NULL] values of the column [uid]. *)
Definition uids (us : list UserRow) : list Z :=
  flat_map (fun u => match u_uid u with Some v => [v] | None => [] end) us.

(** [c] is a candidate: at least the floor, one more than a UID in use, and
    not in use itself. *)
Definition candidate (us : list UserRow) (floor c : Z) : Prop :=
  floor <= c /\ In (c - 1) (uids us) /\ ~ In c (uids us).

(** No row of [users] has this [idx]. *)
Definition no_such_user (userIdx : Z) (w : World) : Prop :=
  forall u, In u (users (db w)) -> u_idx u <> userIdx.

(** The world after a statement that changes no table. *)
Definition issued (q : Sql) (w : World) : World :=
  mkWorld (this w)
    (mkTransaction (db w) (tr_locks (tr w)) (tr_now (tr w))
       (tr_issued (tr w) ++ [q])).

(** The account has a [username] and a [shell]. *)
Definition has_username_and_shell (user : User) : bool :=
  match username user, shell user with
  | Some _, Some _ => true
  | _, _ => false
  end.

(** The password with one null byte after the bytes of every character. *)
Definition null_padded (password : JsString) : Buffer :=
  flat_map (fun character => Buffer_from character ++ [0%N]) (spread password).

(** What the string iterator yields: one code unit, or a high surrogate
    followed by a low one. *)
Definition is_character (x : JsString) : Prop :=
  (exists c, x = [c]) \/
  (exists c d, x = [c; d] /\ is_high_surrogate c = true
               /\ is_low_surrogate d = true).

(** The hash primitive a legacy tag selects. *)
Definition legacy_primitive `{Crypto} (id : string)
  : option (Buffer -> Buffer) :=
  if String.eqb id "mssql-sha1" then Some sha1
  else if String.eqb id "mssql-sha512" then Some sha512
  else None.

(** Two rows are in the order of [ORDER BY key]. *)
Definition key_ordered {A} (key : A -> option Z) (x y : A) : Prop :=
  key_le (key x) (key y) = true.

(* ================================================================== *)
(** ** Stand-ins for the parameters, and a sample world *)

(** Modelled from the spec: the transaction class is not in this source
    file.  The spec asks that UID allocation run while the transaction holds
    an exclusive write lock on the account table and lists
    [ensureExclusiveLock(resourceName)] among the transaction's operations;
    the check passes when the table is among the locks held and throws
    otherwise. *)
Definition ensureHasAccessExclusiveLock_held (t : Transaction)
    (table : string) : result unit :=
  if existsb (String.eqb table) (tr_locks t) then Ok tt
  else Err (JsError "no access exclusive lock").



(** A toy instance of the crypto packages, for running the methods on
    sample worlds: the two hash primitives are the identity and list
    reversal, an argon2 digest spells the password out, and one legacy
    digest is known to [phc.deserialize]. *)
Definition toy_argon2_hash (salt : Buffer) (password : JsString) : string :=
  ("argon2:" ++ toString_hex (Buffer_from password))%string.

Definition toy_crypto : Crypto := {|
  argon2_hash := toy_argon2_hash;
  argon2_verify :=
    fun digest password =>
      Ok (String.eqb digest (toy_argon2_hash [] password));
  phc_deserialize :=
    fun digest =>
      if String.eqb digest "legacy"
      then Ok (mkPhcObject "mssql-sha1" (Some [7%N])
                 (Some [112; 0; 119; 0; 7]%N))
      else if String.prefix "argon2:" digest
           then Ok (mkPhcObject "argon2i" None None)
           else Err (JsError "pchstr must contain a $ as first char");
  sha1 := fun b => b;
  sha512 := fun b => rev b
|}.

Definition sample_config : Config :=
  mkConfig (mkLdapConfig "users" "dc=example,dc=com")
    (mkPosixConfig 10 "/home" 100).

Definition sample_schema : Schema :=
  mkSchema true None 0 (fun _ _ => true).

(** The password ["pw"]. *)
Definition sample_password : JsString := [112; 119]%N.

Definition alice : UserRow :=
  mkUserRow 1 (Some "alice") "legacy" "Alice" (Some 10) (Some "/bin/sh") ko
    true None.

Definition bob : UserRow :=
  mkUserRow 2 (Some "bob") (toy_argon2_hash [] sample_password) "Bob"
    (Some 11) (Some "/bin/sh") en false None.

Definition carol : UserRow :=
  mkUserRow 3 None (toy_argon2_hash [] sample_password) "Carol" (Some 13)
    (Some "/bin/sh") en true None.

Definition sample_database : Database :=
  mkDatabase [alice; bob; carol] 4
    [mkTokenRow 1 1 "aa" 1000 2; mkTokenRow 2 2 "bb" 100 5] 3
    [mkEmailRow 1 (Some 1) "Alice" "example.com";
     mkEmailRow 2 (Some 2) "alice" "EXAMPLE.com"]
    [mkHostRow 1 "open" "10.0.0.1" None;
     mkHostRow 2 "lab" "10.0.0.2" (Some 1)]
    [mkHostGroupRow 1 "lab" (Some 7); mkHostGroupRow 2 "free" None].

(** A world whose transaction holds the lock on [users], and one whose
    transaction holds no lock; SQL [now()] reads 500. *)
Definition sample_world : World :=
  mkWorld (mkUsers (usersDN (constructor sample_config)) (Some []))
    (mkTransaction sample_database ["users"] 500 []).

Definition unlocked_world : World :=
  mkWorld (mkUsers (usersDN (constructor sample_config)) (Some []))
    (mkTransaction sample_database [] 500 []).

(** A permission check that grants everything to the user 1 and nothing to
    anyone else. *)
Definition only_user_one (userIdx permissionIdx : Z) : M bool :=
  ret (userIdx =? 1).

(** The host [lab] of the sample database, in the host group 1. *)
Definition lab_host : Host := mkHost 2 "lab" "10.0.0.2" (Some 1).

(** The sample world with the directory cache empty. *)
Definition uncached_world : World := set_cache sample_world None.

(* ================================================================== *)
(** ** The remaining tables, and the store *)

(** A row of [user_memberships], and [interface UserMembership]. *)
Record UserMembershipRow : Type := mkUserMembershipRow {
  um_idx : Z;
  um_user_idx : Z;
  um_group_idx : Z
}.

Record UserMembership : Type := mkUserMembership {
  membership_userIdx : Z;
  membership_groupIdx : Z
}.

(** A row of [student_numbers]. *)
Record StudentNumberRow : Type := mkStudentNumberRow {
  sn_idx : Z;
  sn_student_number : string;
  sn_owner_idx : Z
}.

(** The tables and sequences the methods below use and [Database] does not
    hold. *)
Record MoreTables : Type := mkMoreTables {
  user_memberships : list UserMembershipRow;
  user_memberships_idx_seq : Z;
  student_numbers : list StudentNumberRow;
  student_numbers_idx_seq : Z;
  hosts_idx_seq : Z;
  host_groups_idx_seq : Z
}.

Definition set_user_memberships (m : MoreTables)
    (rows : list UserMembershipRow) (seq : Z) : MoreTables :=
  mkMoreTables rows seq (student_numbers m) (student_numbers_idx_seq m)
    (hosts_idx_seq m) (host_groups_idx_seq m).

Definition set_student_numbers (m : MoreTables)
    (rows : list StudentNumberRow) (seq : Z) : MoreTables :=
  mkMoreTables (user_memberships m) (user_memberships_idx_seq m) rows seq
    (hosts_idx_seq m) (host_groups_idx_seq m).


Definition set_host_groups_idx_seq (m : MoreTables) (seq : Z) : MoreTables :=
  mkMoreTables (user_memberships m) (user_memberships_idx_seq m)
    (student_numbers m) (student_numbers_idx_seq m) (hosts_idx_seq m) seq.

Definition set_hosts (d : Database) (hs : list HostRow) : Database :=
  mkDatabase (users d) (users_idx_seq d) (password_change_tokens d)
    (password_change_tokens_idx_seq d) (email_addresses d) hs
    (host_groups d).

Definition set_host_groups (d : Database) (gs : list HostGroupRow)
  : Database :=
  mkDatabase (users d) (users_idx_seq d) (password_change_tokens d)
    (password_change_tokens_idx_seq d) (email_addresses d) (hosts d) gs.

(** The statements of the methods below, one name per SQL text. *)
Inductive MoreSql : Type :=
| SqlInsertHost
| SqlDeleteHost
| SqlInsertHostGroup
| SqlUpdateRequiredPermission
| SqlUpdateHostGroup
| SqlSelectHostByInet
| SqlSelectUserByUsername
| SqlSelectUserByIdx
| SqlSelectShell
| SqlDeleteToken
| SqlSelectExpires
| SqlSelectTokenUser
| SqlInsertUserMembership
| SqlDeleteUserMembership
| SqlSelectUserMemberships
| SqlInsertStudentNumber.

(** The world, the remaining tables, and the statements of the methods
    below in issue order. *)
Record Store : Type := mkStore {
  world : World;
  more : MoreTables;
  more_issued : list MoreSql
}.

Definition MS (A : Type) : Type := Store -> result A * Store.

Definition retS {A} (a : A) : MS A := fun s => (Ok a, s).

Definition throwS {A} (e : error) : MS A := fun s => (Err e, s).

Definition bindS {A B} (m : MS A) (k : A -> MS B) : MS B :=
  fun s =>
    match m s with
    | (Ok a, s') => k a s'
    | (Err e, s') => (Err e, s')
    end.

(** A method of the classes above, run on the world of the store. *)
Definition liftW {A} (m : M A) : MS A :=
  fun s =>
    let (r, w') := m (world s) in
    (r, mkStore w' (more s) (more_issued s)).

Declare Scope store_scope.
Delimit Scope store_scope with store.
Notation "x <- m ;; k" := (bindS m (fun x => k))
  (at level 100, m at next level, right associativity) : store_scope.
Notation "m ;; k" := (bindS m (fun _ => k))
  (at level 100, right associativity) : store_scope.
Local Open Scope store_scope.

(** [tr.query(q, ...)] for the statements below: recorded, then run on the
    tables.  A statement the database refuses throws and changes no
    table. *)
Definition queryS {A} (q : MoreSql)
    (run : Transaction -> MoreTables -> result (A * Database * MoreTables))
  : MS A :=
  fun s =>
    let w := world s in
    let t := tr w in
    let log := more_issued s ++ [q] in
    match run t (more s) with
    | Ok (a, d, m) =>
        (Ok a,
         mkStore
           (mkWorld (this w)
              (mkTransaction d (tr_locks t) (tr_now t) (tr_issued t)))
           m log)
    | Err e => (Err e, mkStore w (more s) log)
    end.

(** [UPDATE table SET ... WHERE matches]: the rows touched, after [set], and
    the table after the statement; nothing when a touched row breaks a
    constraint. *)
Definition update_where {R} (matches : R -> bool) (set : R -> R)
    (accepts : R -> bool) (table : list R) : option (list R * list R) :=
  let touched := map set (filter matches table) in
  if forallb accepts touched
  then Some (touched, map (fun r => if matches r then set r else r) table)
  else None.

(** [new Set()] of numbers, kept in insertion order, and [set.add(x)]. *)
Definition Set_add (x : Z) (set : list Z) : list Z :=
  if existsb (Z.eqb x) set then set else set ++ [x].

(** [for (const x of array) { ... }] where the body updates a local
    variable and may await. *)
Fixpoint for_of {A S} (array : list A) (body : A -> S -> MS S) (s : S)
  : MS S :=
  match array with
  | [] => retS s
  | x :: rest => s' <- body x s ;; for_of rest body s'
  end.

(** What [schema.sql] fixes for the tables of the methods below: the
    defaults of the columns an [INSERT] leaves out and the constraints a new
    or updated row has to meet. *)
Record MoreSchema : Type := mkMoreSchema {
  default_host_group : option Z;
  default_required_permission : option Z;
  hosts_constraints : Database -> HostRow -> bool;
  host_groups_constraints : Database -> HostGroupRow -> bool;
  user_memberships_constraints :
    Database -> MoreTables -> UserMembershipRow -> bool;
  student_numbers_constraints :
    Database -> MoreTables -> StudentNumberRow -> bool
}.

(* ================================================================== *)
(** ** The remaining methods *)

Section RemainingMethods.

Variable config : Config.

Variable more_schema : MoreSchema.

(** SQL [host(inet)]: the address of an [inet] value as text. *)
Variable sql_host : string -> string.

(** [this.model.groups.getGroupReachableArray(tr, groupIdx)] *)
Variable getGroupReachableArray : Z -> MS (list Z).

(** [posixAccountObjectClass] of [../ldap/types]. *)
Variable posixAccountObjectClass : list string.

(* ---------------------------------------------------------------- *)
(** *** class Hosts *)

Definition host_has_idx (idx : Z) (h : HostRow) : bool := hr_idx h =? idx.

Definition group_has_idx (idx : Z) (g : HostGroupRow) : bool :=
  gr_idx g =? idx.


(** [DELETE FROM hosts WHERE idx = $1 RETURNING idx] *)
Definition deleteHost (idx : Z) : MS unit :=
  result <- queryS SqlDeleteHost
              (fun t m =>
                 let d := tr_db t in
                 Ok (map hr_idx (filter (host_has_idx idx) (hosts d)),
                     set_hosts d
                       (filter (fun h => negb (host_has_idx idx h)) (hosts d)),
                     m)) ;;
  match result with
  | [] => throwS NoSuchEntryError
  | _ :: _ => retS tt
  end.

(** [INSERT INTO host_groups(name) VALUES ($1) RETURNING idx] *)
Definition addHostGroup (name : string) : MS Z :=
  result <- queryS SqlInsertHostGroup
              (fun t m =>
                 let d := tr_db t in
                 let idx := host_groups_idx_seq m in
                 let row :=
                   mkHostGroupRow idx name
                     (default_required_permission more_schema) in
                 if host_groups_constraints more_schema d row
                 then Ok ([idx], set_host_groups d (host_groups d ++ [row]),
                          set_host_groups_idx_seq m (idx + 1))
                 else Err DbError) ;;
  match result with
  | idx :: _ => retS idx
  | [] => throwS (JsError "TypeError")
  end.

(** [UPDATE host_groups SET required_permission = $1 WHERE idx = $2
     RETURNING idx] *)
Definition setHostGroupPermission (hostGroupIdx permissionIdx : Z)
  : MS unit :=
  result <- queryS SqlUpdateRequiredPermission
              (fun t m =>
                 let d := tr_db t in
                 match
                   update_where (group_has_idx hostGroupIdx)
                     (fun g =>
                        mkHostGroupRow (gr_idx g) (gr_name g)
                          (Some permissionIdx))
                     (host_groups_constraints more_schema d) (host_groups d)
                 with
                 | Some (touched, table) =>
                     Ok (map gr_idx touched, set_host_groups d table, m)
                 | None => Err DbError
                 end) ;;
  match result with
  | [] => throwS NoSuchEntryError
  | _ :: _ => retS tt
  end.

(** [UPDATE hosts SET host_group = $1 WHERE idx = $2 RETURNING idx] *)
Definition addHostToGroup (hostIdx hostGroupIdx : Z) : MS unit :=
  result <- queryS SqlUpdateHostGroup
              (fun t m =>
                 let d := tr_db t in
                 match
                   update_where (host_has_idx hostIdx)
                     (fun h =>
                        mkHostRow (hr_idx h) (hr_name h) (hr_host h)
                          (Some hostGroupIdx))
                     (hosts_constraints more_schema d) (hosts d)
                 with
                 | Some (touched, table) =>
                     Ok (map hr_idx touched, set_hosts d table, m)
                 | None => Err DbError
                 end) ;;
  match result with
  | [] => throwS NoSuchEntryError
  | _ :: _ => retS tt
  end.

(** [SELECT idx, name, host, host_group FROM hosts WHERE host(host) = $1] *)
Definition getHostByInet (inet : string) : MS Host :=
  result <- queryS SqlSelectHostByInet
              (fun t m =>
                 Ok (filter (fun h => String.eqb (sql_host (hr_host h)) inet)
                       (hosts (tr_db t)),
                     tr_db t, m)) ;;
  match result with
  | [] => throwS NoSuchEntryError
  | row :: _ => retS (rowToHost row)
  end.

(* ---------------------------------------------------------------- *)
(** *** class Users: lookups *)

(** [SELECT idx, username, name, uid, shell FROM users WHERE username = $1] *)
Definition getByUsername (username : string) : MS User :=
  result <- queryS SqlSelectUserByUsername
              (fun t m =>
                 Ok (map select_user_columns
                       (filter (has_username username) (users (tr_db t))),
                     tr_db t, m)) ;;
  if negb (Nat.eqb (List.length result) 1) then throwS NoSuchEntryError
  else
    match result with
    | row :: _ => retS (rowToUser row)
    | [] => throwS (JsError "TypeError")
    end.

Definition getByUsernameAsPosixAccount (username : string) : MS SearchEntry :=
  user <- getByUsername username ;;
  liftW (userToPosixAccount config posixAccountObjectClass user).

(** [SELECT idx, username, name, uid, shell FROM users WHERE idx = $1] *)
Definition getByUserIdx (userIdx : Z) : MS User :=
  result <- queryS SqlSelectUserByIdx
              (fun t m =>
                 Ok (map select_user_columns
                       (filter (has_idx userIdx) (users (tr_db t))),
                     tr_db t, m)) ;;
  if negb (Nat.eqb (List.length result) 1) then throwS NoSuchEntryError
  else
    match result with
    | row :: _ => retS (rowToUser row)
    | [] => throwS (JsError "TypeError")
    end.

(** [SELECT shell FROM users WHERE idx = $1] *)
Definition getShell (userIdx : Z) : MS (option string) :=
  result <- queryS SqlSelectShell
              (fun t m =>
                 Ok (map u_shell (filter (has_idx userIdx) (users (tr_db t))),
                     tr_db t, m)) ;;
  match result with
  | [] => throwS NoSuchEntryError
  | shell :: _ => retS shell
  end.

(* ---------------------------------------------------------------- *)
(** *** class Users: password-change tokens *)

Definition has_token (token : string) (r : TokenRow) : bool :=
  String.eqb (t_token r) token.

(** [DELETE FROM password_change_tokens WHERE token = $1 RETURNING idx] *)
Definition removeToken (token : string) : MS Z :=
  result <- queryS SqlDeleteToken
              (fun t m =>
                 let d := tr_db t in
                 Ok (map t_idx
                       (filter (has_token token) (password_change_tokens d)),
                     set_password_change_tokens d
                       (filter (fun r => negb (has_token token r))
                          (password_change_tokens d)),
                     m)) ;;
  match result with
  | [] => throwS NoSuchEntryError
  | idx :: _ => retS idx
  end.

(** [SELECT expires FROM password_change_tokens WHERE token = $1];
    [moment_] is the time [moment()] reads. *)
Definition ensureTokenNotExpired (moment_ : Z) (token : string) : MS unit :=
  result <- queryS SqlSelectExpires
              (fun t m =>
                 Ok (map t_expires
                       (filter (has_token token)
                          (password_change_tokens (tr_db t))),
                     tr_db t, m)) ;;
  match result with
  | [] => throwS NoSuchEntryError
  | expires :: _ =>
      if expires <=? moment_ then throwS ExpiredTokenError else retS tt
  end.

(** [SELECT user_idx FROM password_change_tokens WHERE token = $1] *)
Definition getUserIdxByPasswordToken (token : string) : MS Z :=
  result <- queryS SqlSelectTokenUser
              (fun t m =>
                 Ok (map t_user_idx
                       (filter (has_token token)
                          (password_change_tokens (tr_db t))),
                     tr_db t, m)) ;;
  match result with
  | [] => throwS NoSuchEntryError
  | user_idx :: _ => retS user_idx
  end.

(* ---------------------------------------------------------------- *)
(** *** class Users: memberships and student numbers *)

Definition rowToUserMembership (row : UserMembershipRow) : UserMembership :=
  mkUserMembership (um_user_idx row) (um_group_idx row).

(** [INSERT INTO user_memberships(user_idx, group_idx) VALUES ($1, $2)
     RETURNING idx] *)
Definition addUserMembership (userIdx groupIdx : Z) : MS Z :=
  result <- queryS SqlInsertUserMembership
              (fun t m =>
                 let idx := user_memberships_idx_seq m in
                 let row := mkUserMembershipRow idx userIdx groupIdx in
                 if user_memberships_constraints more_schema (tr_db t) m row
                 then Ok ([idx], tr_db t,
                          set_user_memberships m (user_memberships m ++ [row])
                            (idx + 1))
                 else Err DbError) ;;
  match result with
  | idx :: _ => retS idx
  | [] => throwS (JsError "TypeError")
  end.

(** [DELETE FROM user_memberships WHERE idx = $1 RETURNING idx] *)
Definition deleteUserMembership (userMembershipIdx : Z) : MS Z :=
  result <- queryS SqlDeleteUserMembership
              (fun t m =>
                 Ok (map um_idx
                       (filter (fun r => um_idx r =? userMembershipIdx)
                          (user_memberships m)),
                     tr_db t,
                     set_user_memberships m
                       (filter (fun r => negb (um_idx r =? userMembershipIdx))
                          (user_memberships m))
                       (user_memberships_idx_seq m))) ;;
  match result with
  | [] => throwS NoSuchEntryError
  | idx :: _ => retS idx
  end.

(** [SELECT user_idx, group_idx FROM user_memberships WHERE user_idx = $1] *)
Definition getAllUserMemberships (userIdx : Z) : MS (list UserMembership) :=
  result <- queryS SqlSelectUserMemberships
              (fun t m =>
                 Ok (filter (fun r => um_user_idx r =? userIdx)
                       (user_memberships m),
                     tr_db t, m)) ;;
  match result with
  | [] => throwS NoSuchEntryError
  | _ :: _ => retS (map rowToUserMembership result)
  end.

Definition getUserReachableGroups (userIdx : Z) : MS (list Z) :=
  userMemberships <- getAllUserMemberships userIdx ;;
  for_of userMemberships
    (fun userMembership groupSet =>
       reachableGroups <-
         getGroupReachableArray (membership_groupIdx userMembership) ;;
       retS (fold_left (fun set gi => Set_add gi set) reachableGroups groupSet))
    [].

(** [INSERT INTO student_numbers(student_number, owner_idx) VALUES ($1, $2)
     RETURNING idx] *)
Definition addStudentNumber (userIdx : Z) (studentNumber : string) : MS Z :=
  result <- queryS SqlInsertStudentNumber
              (fun t m =>
                 let idx := student_numbers_idx_seq m in
                 let row := mkStudentNumberRow idx studentNumber userIdx in
                 if student_numbers_constraints more_schema (tr_db t) m row
                 then Ok ([idx], tr_db t,
                          set_student_numbers m (student_numbers m ++ [row])
                            (idx + 1))
                 else Err DbError) ;;
  match result with
  | idx :: _ => retS idx
  | [] => throwS (JsError "TypeError")
  end.

End RemainingMethods.

Local Close Scope store_scope.

(* ================================================================== *)
(** ** Vocabulary of the further properties *)

(** The directory entry of an account that has a user name and a shell. *)
Definition posixAccountOf (config : Config)
    (posixAccountObjectClass : list string) (usersDN : string) (user : User)
  : option SearchEntry :=
  match username user, shell user with
  | Some username, Some shell =>
      Some (mkSearchEntry
              ("cn=" ++ username ++ "," ++ usersDN)%string
              (mkPosixAccount username username (name user)
                 (homeDirectoryPrefix (posix config) ++ "/" ++ username)%string
                 shell posixAccountObjectClass (uid user)
                 (userGroupGid (posix config))))
  | _, _ => None
  end.

(** The directory of a table of accounts: the entries of its rows as
    [getAll] reads them, in order, the rows without entry left out. *)
Definition posixAccountsOf (config : Config)
    (posixAccountObjectClass : list string) (usersDN : string)
    (rows : list UserRow) : list SearchEntry :=
  flat_map
    (fun row =>
       match
         posixAccountOf config posixAccountObjectClass usersDN
           (rowToUser (select_user_columns row))
       with
       | Some entry => [entry]
       | None => []
       end)
    rows.


(** The value of a lower-case hexadecimal digit, and the bytes a string of
    such digits spells. *)
Definition hex_value (c : ascii) : N :=
  let n := N_of_ascii c in
  if (n <? 58)%N then (n - 48)%N else (n - 87)%N.

Fixpoint from_hex (s : string) : Buffer :=
  match s with
  | String hi (String lo s') =>
      (hex_value hi * 16 + hex_value lo)%N :: from_hex s'
  | _ => []
  end.

(** The store around a world. *)
Definition store_of (w : World) (m : MoreTables) : Store := mkStore w m [].

(** The tables of a store. *)
Definition dbS (s : Store) : Database := db (world s).

(** The store after a statement of the remaining methods that changes no
    table. *)
Definition issuedS (q : MoreSql) (s : Store) : Store :=
  mkStore (world s) (more s) (more_issued s ++ [q]).

(* ================================================================== *)
(** ** Further stand-ins *)

Definition sample_more_schema : MoreSchema :=
  mkMoreSchema None None (fun _ _ => true) (fun _ _ => true)
    (fun _ _ _ => true) (fun _ _ _ => true).

Definition sample_more_tables : MoreTables :=
  mkMoreTables
    [mkUserMembershipRow 1 1 10; mkUserMembershipRow 2 1 20;
     mkUserMembershipRow 3 2 10]
    4 [] 1 3 3.

Definition sample_store : Store := store_of sample_world sample_more_tables.

(** A group graph in which the group 10 is a member of 20 and 20 of 30. *)
Definition sample_reachable (groupIdx : Z) : list Z :=
  if groupIdx =? 10 then [10; 20; 30]
  else if groupIdx =? 20 then [20; 30]
  else [groupIdx].

Definition sample_getGroupReachableArray (groupIdx : Z) : MS (list Z) :=
  retS (sample_reachable groupIdx).

(** The text of an address without its netmask. *)
Fixpoint before_slash (s : string) : string :=
  match s with
  | EmptyString => EmptyString
  | String c s' =>
      if Ascii.eqb c "/"%char then EmptyString else String c (before_slash s')
  end.





(** The membership rows of a user. *)
Definition rows_of_user (userIdx : Z) (m : MoreTables)
  : list UserMembershipRow :=
  filter (fun r => um_user_idx r =? userIdx) (user_memberships m).
(* ================================================================== *)
(** ** Facts about the SQL building blocks *)

Section ListFacts.
Context {A : Type}.
Variable key : A -> option Z.

Lemma key_le_total x y : key_le x y = true \/ key_le y x = true.
Proof. destruct x, y; simpl; auto; rewrite !Z.leb_le; lia. Qed.

Lemma key_le_trans x y z :
  key_le x y = true -> key_le y z = true -> key_le x z = true.
Proof.
  destruct x, y, z; simpl; auto; try discriminate.
  rewrite !Z.leb_le; lia.
Qed.

Lemma in_insert_by x y l : In y (insert_by key x l) <-> y = x \/ In y l.
Proof.
  induction l as [|z l IH]; simpl.
  - intuition.
  - destruct (key_le (key x) (key z)); simpl; rewrite ?IH; intuition.
Qed.

Lemma in_order_by y l : In y (order_by key l) <-> In y l.
Proof.
  induction l as [|x l IH]; simpl.
  - tauto.
  - rewrite in_insert_by, IH. intuition.
Qed.

Lemma insert_by_sorted x l :
  StronglySorted (key_ordered key) l ->
  StronglySorted (key_ordered key) (insert_by key x l).
Proof.
  induction 1 as [|z l Hs IH Hz]; simpl.
  - constructor; constructor.
  - destruct (key_le (key x) (key z)) eqn:E.
    + constructor; [constructor; assumption|].
      constructor; [exact E|].
      rewrite Forall_forall in *. intros y Hy.
      eapply key_le_trans; [exact E | apply Hz, Hy].
    + constructor; [exact IH|].
      rewrite Forall_forall in *. intros y Hy.
      apply in_insert_by in Hy. destruct Hy as [->|Hy].
      * destruct (key_le_total (key x) (key z)) as [H|H]; [congruence|exact H].
      * apply Hz, Hy.
Qed.

Lemma order_by_sorted l : StronglySorted (key_ordered key) (order_by key l).
Proof.
  induction l; simpl; [constructor | apply insert_by_sorted; assumption].
Qed.

Lemma order_by_head_least x rest l y :
  order_by key l = x :: rest -> In y l -> key_le (key x) (key y) = true.
Proof.
  intros E Hy. apply in_order_by in Hy.
  pose proof (order_by_sorted l) as Hs. rewrite E in Hs, Hy.
  inversion Hs as [|? ? _ Hall]; subst.
  destruct Hy as [<-|Hy].
  - destruct (key_le_total (key x) (key x)); assumption.
  - rewrite Forall_forall in Hall. apply Hall, Hy.
Qed.
End ListFacts.

Lemma in_right_outer_join {A B} (on : A -> B -> bool) la lb a b :
  In (a, b) (right_outer_join on la lb) <->
  In b lb /\
  ((exists a', a = Some a' /\ In a' la /\ on a' b = true) \/
   (a = None /\ forall a', In a' la -> on a' b = false)).
Proof.
  unfold right_outer_join. rewrite in_flat_map. split.
  - intros (b' & Hb' & Hin).
    destruct (filter (fun a0 => on a0 b') la) as [|m ms] eqn:E.
    + destruct Hin as [Hin|[]]. inversion Hin; subst. split; [assumption|].
      right. split; [reflexivity|]. intros a' Ha'.
      destruct (on a' b) eqn:Eon; [|reflexivity].
      assert (In a' (filter (fun a0 => on a0 b) la)) as Hf
        by (apply filter_In; auto).
      rewrite E in Hf. destruct Hf.
    + rewrite <- E in Hin. apply in_map_iff in Hin.
      destruct Hin as (a' & Heq & Ha'). inversion Heq; subst.
      apply filter_In in Ha'. split; [assumption|]. left. eauto.
  - intros (Hb & [(a' & -> & Ha' & Hon) | (-> & Hnone)]).
    + exists b. split; [assumption|].
      assert (In a' (filter (fun a0 => on a0 b) la)) as Hf
        by (apply filter_In; auto).
      destruct (filter (fun a0 => on a0 b) la) as [|m ms] eqn:E;
        [destruct Hf|].
      rewrite <- E. apply in_map_iff. exists a'. rewrite E. auto.
    + exists b. split; [assumption|].
      destruct (filter (fun a0 => on a0 b) la) as [|m ms] eqn:E.
      * left; reflexivity.
      * assert (In m (filter (fun a0 => on a0 b) la)) as Hf
          by (rewrite E; left; reflexivity).
        apply filter_In in Hf. destruct Hf as [Hm Hon].
        rewrite (Hnone m Hm) in Hon. discriminate.
Qed.

Lemma in_uids us v : In v (uids us) <-> exists u, In u us /\ u_uid u = Some v.
Proof.
  unfold uids. rewrite in_flat_map. split.
  - intros (u & Hu & Hv). exists u. split; [assumption|].
    destruct (u_uid u); simpl in Hv; [|tauto]. destruct Hv as [->|[]].
    reflexivity.
  - intros (u & Hu & E). exists u. split; [assumption|]. rewrite E. left.
    reflexivity.
Qed.

Section GapScan.
Variable us : list UserRow.
Variable floor : Z.

Lemma gap_on_true a b :
  gap_on a b = true <->
  exists v, u_uid b = Some v /\ u_uid a = Some (v + 1).
Proof.
  unfold gap_on, sql_eq, sql_plus.
  destruct (u_uid a) as [x|], (u_uid b) as [y|]; split;
    try discriminate; try (intros (v & E1 & E2); discriminate).
  - rewrite Z.eqb_eq. intros ->. eauto.
  - intros (v & E1 & E2). inversion E1; inversion E2; subst.
    apply Z.eqb_refl.
Qed.

Lemma in_gap_selected a b :
  In (a, b) (gap_selected us floor) <->
  a = None /\ In b us /\
  exists v, u_uid b = Some v /\ candidate us floor (v + 1).
Proof.
  unfold gap_selected. rewrite filter_In, in_right_outer_join.
  unfold gap_where, candidate. simpl. rewrite andb_true_iff. split.
  - intros ((Hb & Hjoin) & Hnull & Hge).
    destruct (u_uid b) as [v|] eqn:Eb; simpl in Hge; [|discriminate].
    apply Z.leb_le in Hge.
    destruct Hjoin as [(a' & -> & Ha' & Hon) | (-> & Hnone)].
    + apply gap_on_true in Hon. destruct Hon as (v' & _ & Ea').
      simpl in Hnull. rewrite Ea' in Hnull. discriminate.
    + split; [reflexivity|]. split; [assumption|]. exists v.
      split; [reflexivity|]. split; [assumption|]. split.
      * replace (v + 1 - 1) with v by lia. apply in_uids. eauto.
      * intros Hin. apply in_uids in Hin. destruct Hin as (a' & Ha' & Ea').
        pose proof (Hnone a' Ha') as Hoff.
        assert (gap_on a' b = true) as Hyes
          by (apply gap_on_true; eauto).
        congruence.
  - intros (-> & Hb & v & Eb & Hfloor & _ & Hfree). split.
    + split; [assumption|]. right. split; [reflexivity|].
      intros a' Ha'. destruct (gap_on a' b) eqn:E; [|reflexivity].
      apply gap_on_true in E. destruct E as (v' & Eb' & Ea').
      rewrite Eb in Eb'. inversion Eb'; subst v'.
      exfalso. apply Hfree. apply in_uids. eauto.
    + split; [reflexivity|]. rewrite Eb. simpl. apply Z.leb_le. assumption.
Qed.

Lemma candidate_selected c :
  candidate us floor c ->
  exists b, In (None, b) (gap_selected us floor) /\ u_uid b = Some (c - 1).
Proof.
  intros Hc. pose proof Hc as (_ & Hin & _).
  apply in_uids in Hin. destruct Hin as (b & Hb & Eb).
  exists b. split; [|assumption]. apply in_gap_selected.
  split; [reflexivity|]. split; [assumption|]. exists (c - 1).
  split; [assumption|]. replace (c - 1 + 1) with c by lia. assumption.
Qed.

(** The scan returns no row when there is no candidate, and otherwise one
    row that holds the least candidate. *)
Lemma gap_scan_least :
  match gap_scan us floor with
  | [] => forall c, ~ candidate us floor c
  | row :: rest =>
      rest = [] /\
      exists c, row = Some c /\ candidate us floor c /\
                forall c', candidate us floor c' -> c <= c'
  end.
Proof.
  unfold gap_scan.
  destruct (order_by (fun ab => u_uid (snd ab)) (gap_selected us floor))
    as [|[a b] rest] eqn:E; simpl.
  - intros c Hc. destruct (candidate_selected Hc) as (b & Hb & _).
    apply (in_order_by (fun ab => u_uid (snd ab))) in Hb.
    rewrite E in Hb. destruct Hb.
  - split; [reflexivity|].
    assert (In (a, b) (gap_selected us floor)) as Hab.
    { apply (in_order_by (fun ab => u_uid (snd ab))). rewrite E. left.
      reflexivity. }
    apply in_gap_selected in Hab. destruct Hab as (-> & Hb & v & Eb & Hc).
    exists (v + 1). rewrite Eb. simpl. split; [reflexivity|].
    split; [assumption|]. intros c' Hc'.
    destruct (candidate_selected Hc') as (b' & Hb' & Eb').
    pose proof (@order_by_head_least _ _ _ _ _ _ E Hb') as Hle.
    simpl in Hle. rewrite Eb, Eb' in Hle. simpl in Hle.
    apply Z.leb_le in Hle. lia.
Qed.
End GapScan.

(* ================================================================== *)
(** ** Properties of the methods *)

Section Properties.

Variable config : Config.
Context {crypto : Crypto}.
Variable schema : Schema.
Variable ensureHasAccessExclusiveLock : Transaction -> string -> result unit.

(* ---------------------------------------------------------------- *)
(** *** Running a method *)

Lemma bind_run {A B} (m : M A) (k : A -> M B) (w : World) :
  bind m k w =
  match m w with
  | (Ok a, w') => k a w'
  | (Err e, w') => (Err e, w')
  end.
Proof. reflexivity. Qed.

Lemma query_run {A} (q : Sql) (run : Transaction -> result (A * Database))
    (w : World) :
  query q run w =
  match run (tr w) with
  | Ok (a, d) =>
      (Ok a,
       mkWorld (this w)
         (mkTransaction d (tr_locks (tr w)) (tr_now (tr w))
            (tr_issued (tr w) ++ [q])))
  | Err e => (Err e, issued q w)
  end.
Proof. reflexivity. Qed.

(* ---------------------------------------------------------------- *)
(** *** UID allocation *)

(** What [generateUid] does on a transaction, by the outcome of the lock
    check: it rethrows, or it issues the scan and returns the head of the
    result, or the floor when the scan returns no row. *)
Lemma generateUid_run
    (check : Transaction -> string -> result unit) (w : World) :
  generateUid config check w =
  match check (tr w) "users" with
  | Err e => (Err e, w)
  | Ok _ =>
      (Ok (match gap_scan (users (db w)) (minUid (posix config)) with
           | row :: _ => row
           | [] => Some (minUid (posix config))
           end),
       mkWorld (this w)
         (mkTransaction (db w) (tr_locks (tr w)) (tr_now (tr w))
            (tr_issued (tr w) ++ [SqlGapScan])))
  end.
Proof.
  unfold generateUid, bind, get, lift, query, ret, db. simpl.
  destruct (check (tr w) "users") as [[]|e]; [|reflexivity].
  simpl. destruct (gap_scan _ _); reflexivity.
Qed.


(** C8.  [generateUid] runs the lock check on the table [users] first.
    When the check throws, the method throws the same error and the world
    is as before: no statement has been issued.  When the check passes,
    the gap scan is the one statement issued.  With the check modelled as
    membership among the locks held: without the lock on [users] the
    method throws and issues nothing, with it the scan is issued. *)
Theorem generateUid_checks_lock_before_scan (w : World) :
  match ensureHasAccessExclusiveLock (tr w) "users" with
  | Err e => generateUid config ensureHasAccessExclusiveLock w = (Err e, w)
  | Ok _ =>
      exists v w',
        generateUid config ensureHasAccessExclusiveLock w = (Ok v, w') /\
        tr_issued (tr w') = tr_issued (tr w) ++ [SqlGapScan]
  end /\
  if existsb (String.eqb "users") (tr_locks (tr w))
  then exists v w',
         generateUid config ensureHasAccessExclusiveLock_held w = (Ok v, w')
         /\ tr_issued (tr w') = tr_issued (tr w) ++ [SqlGapScan]
  else exists e,
         generateUid config ensureHasAccessExclusiveLock_held w = (Err e, w).
Proof.
  split.
  - rewrite generateUid_run.
    destruct (ensureHasAccessExclusiveLock (tr w) "users");
      [|reflexivity].
    eexists. eexists. split; reflexivity.
  - rewrite generateUid_run. unfold ensureHasAccessExclusiveLock_held.
    destruct (existsb (String.eqb "users") (tr_locks (tr w))).
    + eexists. eexists. split; reflexivity.
    + eexists. reflexivity.
Qed.

(* ---------------------------------------------------------------- *)
(** *** Updates keyed by [idx] *)

Lemma returning_idx_nil userIdx w :
  no_such_user userIdx w -> returning_idx userIdx (db w) = [].
Proof.
  unfold no_such_user, returning_idx. intros Hnone.
  induction (users (db w)) as [|u us IH]; [reflexivity|]. simpl.
  unfold has_idx at 1.
  destruct (u_idx u =? userIdx) eqn:E.
  - apply Z.eqb_eq in E. exfalso. apply (Hnone u); [left; reflexivity|].
    assumption.
  - apply IH. intros u' Hu'. apply Hnone. right. assumption.
Qed.

Lemma update_users_none userIdx set w :
  no_such_user userIdx w -> update_users userIdx set (db w) = db w.
Proof.
  unfold no_such_user, update_users, set_users. intros Hnone.
  destruct (db w) as [us s1 ts s2 es hs gs]. simpl in *. f_equal.
  induction us as [|u us IH]; [reflexivity|]. simpl.
  unfold updated at 1, has_idx at 1.
  destruct (u_idx u =? userIdx) eqn:E.
  - apply Z.eqb_eq in E. exfalso. apply (Hnone u); [left; reflexivity|].
    assumption.
  - f_equal. apply IH. intros u' Hu'. apply Hnone. right. assumption.
Qed.

(** C9.  [activate], [deactivate] and [updateLastLoginAt] return without
    error for every [userIdx].  When no row of [users] has that [idx] they
    change no table and leave the [Users] object alone, while [delete],
    [changePassword] and [changeShell] throw [NoSuchEntryError]. *)
Theorem status_updates_ignore_missing_row
    (w : World) (userIdx : Z) (salt : Buffer) (newPassword : JsString)
    (newShell : string) :
  (exists w', activate userIdx w = (Ok tt, w')) /\
  (exists w', deactivate userIdx w = (Ok tt, w')) /\
  (exists w', updateLastLoginAt userIdx w = (Ok tt, w')) /\
  (no_such_user userIdx w ->
   activate userIdx w = (Ok tt, issued SqlActivate w) /\
   deactivate userIdx w = (Ok tt, issued SqlDeactivate w) /\
   updateLastLoginAt userIdx w = (Ok tt, issued SqlUpdateLastLoginAt w) /\
   fst (delete userIdx w) = Err NoSuchEntryError /\
   fst (changePassword salt userIdx newPassword w) = Err NoSuchEntryError /\
   fst (changeShell userIdx newShell w) = Err NoSuchEntryError).
Proof.
  repeat split; try (eexists; reflexivity); pose proof H as Hnone;
    unfold activate, deactivate, updateLastLoginAt, delete, changePassword,
      changeShell, bind, query, issued; cbn [fst snd];
    fold (db w);
    rewrite ?(update_users_none _ Hnone), ?(returning_idx_nil Hnone);
    reflexivity.
Qed.

(* ---------------------------------------------------------------- *)
(** *** The directory cache *)

(** C7.  A [create], [delete] or [changeShell] that returns leaves the
    [Users] object with an empty cache and the [usersDN] it had;
    [changePassword], whether it returns or throws, leaves the object as
    it was. *)
Theorem cache_cleared_by_create_delete_changeShell
    (w : World) (salt : Buffer) (username : string) (password : JsString)
    (name shell : string) (preferredLanguage : Language) (userIdx : Z)
    (newShell : string) (newPassword : JsString) :
  (forall idx w',
      create config schema ensureHasAccessExclusiveLock salt username
        password name shell preferredLanguage w = (Ok idx, w') ->
      this w' = mkUsers (usersDN (this w)) None) /\
  (forall idx w',
      delete userIdx w = (Ok idx, w') ->
      this w' = mkUsers (usersDN (this w)) None) /\
  (forall idx w',
      changeShell userIdx newShell w = (Ok idx, w') ->
      this w' = mkUsers (usersDN (this w)) None) /\
  (forall r w',
      changePassword salt userIdx newPassword w = (r, w') ->
      this w' = this w).
Proof.
  repeat split.
  - intros idx w'. unfold create, bind. rewrite generateUid_run.
    destruct (ensureHasAccessExclusiveLock (tr w) "users");
      [|discriminate].
    unfold query, insert_user, assign_posixAccountsCache, set_cache.
    cbn [tr tr_db this].
    destruct (users_constraints schema _ _); [|discriminate].
    cbn. intros E. inversion E. reflexivity.
  - intros idx w'. unfold delete, bind, query, assign_posixAccountsCache,
      set_cache, ret, throw. cbn [tr tr_db this].
    destruct (returning_idx userIdx (tr_db (tr w))); [discriminate|].
    cbn. intros E. inversion E. reflexivity.
  - intros idx w'. unfold changeShell, bind, query,
      assign_posixAccountsCache, set_cache, ret, throw. cbn [tr tr_db this].
    destruct (returning_idx userIdx (tr_db (tr w))); [discriminate|].
    cbn. intros E. inversion E. reflexivity.
  - intros r w'. unfold changePassword, bind, query, ret, throw.
    cbn [tr tr_db this].
    destruct (returning_idx userIdx (tr_db (tr w)));
      intros E; inversion E; reflexivity.
Qed.

(* ---------------------------------------------------------------- *)
(** *** Host authorization *)

Section HostAuthorization.

Variable checkUserHavePermission : Z -> Z -> M bool.

(** C5.  A host outside any group is authorized at once.  Otherwise, once
    the host group is loaded, a group without required permission
    authorizes, and a group with one authorizes when the permission check
    returns [true] and throws [AuthorizationError] when it returns
    [false]. *)
Theorem authorizeUserByHost_decision (w : World) (userIdx : Z) (host : Host) :
  (hostGroupIdx host = None ->
   authorizeUserByHost checkUserHavePermission userIdx host w = (Ok tt, w))
  /\
  (forall groupIdx hostGroup w1,
      hostGroupIdx host = Some groupIdx ->
      getHostGroupByIdx groupIdx w = (Ok hostGroup, w1) ->
      (requiredPermissionIdx hostGroup = None ->
       authorizeUserByHost checkUserHavePermission userIdx host w
       = (Ok tt, w1))
      /\
      (forall permissionIdx havePermission w2,
          requiredPermissionIdx hostGroup = Some permissionIdx ->
          checkUserHavePermission userIdx permissionIdx w1
          = (Ok havePermission, w2) ->
          authorizeUserByHost checkUserHavePermission userIdx host w
          = (if havePermission then Ok tt else Err AuthorizationError, w2))).
Proof.
  split.
  - intros E. unfold authorizeUserByHost. rewrite E. reflexivity.
  - intros groupIdx hostGroup w1 E Hload. split.
    + intros Hperm. unfold authorizeUserByHost, bind. rewrite E, Hload, Hperm.
      reflexivity.
    + intros permissionIdx havePermission w2 Hperm Hcheck.
      unfold authorizeUserByHost, bind. rewrite E, Hload, Hperm, Hcheck.
      destruct havePermission; reflexivity.
Qed.

End HostAuthorization.

(* ---------------------------------------------------------------- *)
(** *** The directory projection *)

Section DirectoryProjection.

Variable posixAccountObjectClass : list string.

Lemma userToPosixAccount_run (user : User) (w : World) :
  userToPosixAccount config posixAccountObjectClass user w =
  match username user, shell user with
  | Some username, Some shell =>
      (Ok (mkSearchEntry
             ("cn=" ++ username ++ "," ++ usersDN (this w))%string
             (mkPosixAccount username username (name user)
                (homeDirectoryPrefix (posix config) ++ "/" ++ username)%string
                shell posixAccountObjectClass (uid user)
                (userGroupGid (posix config)))),
       w)
  | _, _ => (Err (JsError "Cannot convert to posixAccount"), w)
  end.
Proof.
  unfold userToPosixAccount.
  destruct (username user), (shell user); reflexivity.
Qed.

Lemma userToPosixAccount_world (user : User) (w : World) :
  snd (userToPosixAccount config posixAccountObjectClass user w) = w.
Proof.
  rewrite userToPosixAccount_run.
  destruct (username user), (shell user); reflexivity.
Qed.

Lemma userToPosixAccount_ok_iff (user : User) (w : World) :
  (exists entry,
      userToPosixAccount config posixAccountObjectClass user w
      = (Ok entry, w))
  <-> has_username_and_shell user = true.
Proof.
  rewrite userToPosixAccount_run. unfold has_username_and_shell.
  destruct (username user), (shell user); split;
    try (intros [entry E]; discriminate); try discriminate;
    intros _; try reflexivity.
  eexists. reflexivity.
Qed.

(** One turn of the loop of [usersToPosixAccounts]. *)
Lemma usersToPosixAccounts_body (user : User) posixAccounts (w : World) :
  try_catch
    (entry <- userToPosixAccount config posixAccountObjectClass user ;;
     ret (posixAccounts ++ [entry]))
    (fun e => ret posixAccounts) w
  = match username user, shell user with
    | Some username, Some shell =>
        (Ok (posixAccounts ++ [mkSearchEntry
             ("cn=" ++ username ++ "," ++ usersDN (this w))%string
             (mkPosixAccount username username (name user)
                (homeDirectoryPrefix (posix config) ++ "/" ++ username)%string
                shell posixAccountObjectClass (uid user)
                (userGroupGid (posix config)))]), w)
    | _, _ => (Ok posixAccounts, w)
    end.
Proof.
  unfold try_catch. rewrite bind_run, userToPosixAccount_run.
  destruct (username user), (shell user); reflexivity.
Qed.

(** The loop of [usersToPosixAccounts], started with any array: it
    returns, the world is untouched, and the array has grown by one entry
    per account that has a user name and a shell, in order. *)
Lemma forEach_usersToPosixAccounts (users : list User) (w : World) :
  forall posixAccounts,
  exists entries,
    forEach users
      (fun user posixAccounts =>
         try_catch
           (entry <- userToPosixAccount config posixAccountObjectClass user ;;
            ret (posixAccounts ++ [entry]))
           (fun e => ret posixAccounts))
      posixAccounts w
    = (Ok (posixAccounts ++ entries), w) /\
    Forall2
      (fun user entry =>
         userToPosixAccount config posixAccountObjectClass user w
         = (Ok entry, w))
      (filter has_username_and_shell users) entries.
Proof.
  induction users as [|user rest IH]; intros posixAccounts.
  - exists []. rewrite app_nil_r. split; [reflexivity | constructor].
  - cbn [forEach filter]. rewrite bind_run, usersToPosixAccounts_body.
    unfold has_username_and_shell.
    destruct (username user) as [n|] eqn:E1, (shell user) as [sh|] eqn:E2.
    + destruct (IH (posixAccounts ++ [mkSearchEntry
             ("cn=" ++ n ++ "," ++ usersDN (this w))%string
             (mkPosixAccount n n (name user)
                (homeDirectoryPrefix (posix config) ++ "/" ++ n)%string
                sh posixAccountObjectClass (uid user)
                (userGroupGid (posix config)))]))
        as (entries & Hrun & Hall).
      eexists (_ :: entries). rewrite Hrun, <- app_assoc.
      split; [reflexivity|]. constructor; [|exact Hall].
      rewrite userToPosixAccount_run, E1, E2. reflexivity.
    + destruct (IH posixAccounts) as (entries & Hrun & Hall).
      exists entries. split; assumption.
    + destruct (IH posixAccounts) as (entries & Hrun & Hall).
      exists entries. split; assumption.
    + destruct (IH posixAccounts) as (entries & Hrun & Hall).
      exists entries. split; assumption.
Qed.

(** C6.  [usersToPosixAccounts] returns for every list of accounts, with
    the world untouched; the entries it returns are, in order, the entries
    of the accounts whose [username] and [shell] are both non-null;
    [userToPosixAccount] throws on each of the other accounts, and the
    build goes on without them.  On an empty cache,
    [getAllAsPosixAccounts] returns the entries built in this way from
    the rows of [users] and stores them in the cache. *)
Theorem usersToPosixAccounts_skips_unprojectable
    (accounts : list User) (w : World) :
  (exists entries,
      usersToPosixAccounts config posixAccountObjectClass accounts w
      = (Ok entries, w) /\
      Forall2
        (fun user entry =>
           userToPosixAccount config posixAccountObjectClass user w
           = (Ok entry, w))
        (filter has_username_and_shell accounts) entries) /\
  (forall user,
      (username user = None \/ shell user = None) <->
      userToPosixAccount config posixAccountObjectClass user w
      = (Err (JsError "Cannot convert to posixAccount"), w)) /\
  (posixAccountsCache (this w) = None ->
   let w1 := issued SqlSelectAllUsers w in
   exists entries,
     getAllAsPosixAccounts config posixAccountObjectClass w
     = (Ok entries, set_cache w1 (Some entries)) /\
     Forall2
       (fun user entry =>
          userToPosixAccount config posixAccountObjectClass user w1
          = (Ok entry, w1))
       (filter has_username_and_shell
          (map rowToUser (map select_user_columns (users (db w)))))
       entries).
Proof.
  split; [|split].
  - destruct (forEach_usersToPosixAccounts accounts w []) as (entries & H & Hall).
    exists entries. split; assumption.
  - intros user. rewrite userToPosixAccount_run.
    destruct (username user), (shell user); split;
      try discriminate; try reflexivity;
      try (intros [E|E]; discriminate); intros _; auto.
  - intros Hcache w1. unfold getAllAsPosixAccounts, bind at 1. unfold get.
    rewrite Hcache. unfold bind at 1. unfold getAll, bind at 1.
    unfold query. cbn [tr tr_db this]. unfold ret at 1.
    fold (db w). fold (issued SqlSelectAllUsers w). fold w1.
    destruct (forEach_usersToPosixAccounts
                (map rowToUser (map select_user_columns
                                  (users (db w)))) w1 [])
      as (entries & Hrun & Hall).
    exists entries. unfold bind at 1. unfold usersToPosixAccounts.
    rewrite Hrun. split; [reflexivity | exact Hall].
Qed.

End DirectoryProjection.

(* ---------------------------------------------------------------- *)
(** *** Password-change tokens *)

Lemma find_map_same_key {A} (p : A -> bool) (f : A -> A) (l : list A) :
  (forall x, p (f x) = p x) ->
  find p (map f l) = option_map f (find p l).
Proof.
  intros Hp. induction l as [|x l IH]; [reflexivity|]. simpl.
  rewrite Hp. destruct (p x); [reflexivity | exact IH].
Qed.

Lemma find_some_existsb {A} (p : A -> bool) (l : list A) (x : A) :
  find p l = Some x -> existsb p l = true.
Proof.
  intros E. apply find_some in E. apply existsb_exists. exists x. exact E.
Qed.

(** C2, as the code has it.  Let [r] be the row of the user in
    [password_change_tokens].  [generatePasswordChangeToken] returns the
    hex string of the random bytes, and the user's row then holds that
    token, an expiry one day after the clock, and a resend count that is
    the old count plus one when the old token was still live
    ([now() < expires]), and one when it had expired
    ([expires <= now()]): the count is reset to zero and the upsert then
    adds one. *)
Theorem generatePasswordChangeToken_resend_count
    (w : World) (randomBytes : Buffer) (moment_ : Z) (userIdx : Z)
    (r : TokenRow) :
  find (has_user_idx userIdx) (password_change_tokens (db w)) = Some r ->
  let token := toString_hex randomBytes in
  exists w' r',
    generatePasswordChangeToken schema randomBytes moment_ userIdx w
    = (Ok token, w') /\
    find (has_user_idx userIdx) (password_change_tokens (db w')) = Some r' /\
    t_token r' = token /\
    t_expires r' = moment_ + one_day /\
    (tr_now (tr w) < t_expires r ->
     t_resend_count r' = t_resend_count r + 1) /\
    (t_expires r <= tr_now (tr w) -> t_resend_count r' = 1).
Proof.
  intros Hfind token. subst token.
  unfold generatePasswordChangeToken, resetResendCountIfExpired.
  rewrite bind_run, query_run. cbn [tr tr_db]. fold (db w).
  rewrite bind_run, query_run. unfold upsert_token.
  cbn [tr tr_db password_change_tokens set_password_change_tokens
       set_password_change_tokens_idx_seq password_change_tokens_idx_seq
       tr_now].
  set (reset :=
         fun r0 : TokenRow =>
           if has_user_idx userIdx r0 && (t_expires r0 <=? tr_now (tr w))
           then mkTokenRow (t_idx r0) (t_user_idx r0) (t_token r0)
                  (t_expires r0) 0
           else r0).
  assert (forall x, has_user_idx userIdx (reset x) = has_user_idx userIdx x)
    as Hreset.
  { intros x. unfold reset.
    destruct (has_user_idx userIdx x && (t_expires x <=? tr_now (tr w)));
      reflexivity. }
  assert (find (has_user_idx userIdx)
            (map reset (password_change_tokens (db w))) = Some (reset r))
    as Hfind1.
  { rewrite (find_map_same_key _ _ _ Hreset), Hfind. reflexivity. }
  rewrite (find_some_existsb _ _ Hfind1).
  set (bump :=
         fun p : TokenRow =>
           if has_user_idx userIdx p
           then mkTokenRow (t_idx p) (t_user_idx p)
                  (toString_hex randomBytes) (moment_ + one_day)
                  (t_resend_count p + 1)
           else p).
  assert (forall x, has_user_idx userIdx (bump x) = has_user_idx userIdx x)
    as Hbump.
  { intros x. unfold bump.
    destruct (has_user_idx userIdx x) eqn:E; [|exact E]. exact E. }
  eexists. exists (bump (reset r)). split; [reflexivity|].
  cbn [db tr tr_db password_change_tokens].
  split.
  { unfold set_password_change_tokens, set_password_change_tokens_idx_seq.
    cbn [password_change_tokens]. fold bump.
    rewrite (find_map_same_key _ _ _ Hbump), Hfind1.
    reflexivity. }
  pose proof (find_some _ _ Hfind) as [_ Hkey].
  unfold bump. rewrite Hreset, Hkey. cbn [t_token t_expires t_resend_count].
  split; [reflexivity|]. split; [reflexivity|].
  unfold reset. rewrite Hkey. cbn [andb].
  destruct (t_expires r <=? tr_now (tr w)) eqn:E;
    [apply Z.leb_le in E | apply Z.leb_gt in E];
    cbn [t_resend_count]; split; intros; lia.
Qed.

(* ---------------------------------------------------------------- *)
(** *** Lookup by e-mail address *)

Section EmailLookup.

Variable LOWER : string -> string.



End EmailLookup.

(* ---------------------------------------------------------------- *)
(** *** The null-padded password *)

Lemma spread_pair (c d : N) (s : JsString) :
  spread (c :: d :: s) =
  if is_high_surrogate c && is_low_surrogate d
  then [c; d] :: spread s
  else [c] :: spread (d :: s).
Proof. reflexivity. Qed.

(** Induction on a string that may drop one code unit or two. *)
Lemma string_pair_ind (P : JsString -> Prop) :
  P [] ->
  (forall c, P [c]) ->
  (forall c d s, P s -> P (d :: s) -> P (c :: d :: s)) ->
  forall s, P s.
Proof.
  intros Hnil Hone Hpair s.
  assert (P s /\ forall c, P (c :: s)) as [H _]; [|exact H].
  induction s as [|d s [IH1 IH2]].
  - split; [exact Hnil | exact Hone].
  - split; [apply IH2|]. intros c. apply Hpair; [exact IH1 | apply IH2].
Qed.

Lemma spread_characters (s : JsString) : Forall is_character (spread s).
Proof.
  induction s as [|c|c d s IH1 IH2] using string_pair_ind.
  - constructor.
  - constructor; [left; eauto | constructor].
  - rewrite spread_pair.
    destruct (is_high_surrogate c && is_low_surrogate d) eqn:E.
    + constructor; [|exact IH1].
      right. apply andb_true_iff in E. destruct E. eauto.
    + constructor; [left; eauto | exact IH2].
Qed.

Lemma join_spread (s : JsString) : join (spread s) = s.
Proof.
  unfold join.
  induction s as [|c|c d s IH1 IH2] using string_pair_ind.
  - reflexivity.
  - reflexivity.
  - rewrite spread_pair.
    destruct (is_high_surrogate c && is_low_surrogate d);
      cbn [List.concat app]; [rewrite IH1 | rewrite IH2]; reflexivity.
Qed.

Lemma Buffer_from_null (rest : JsString) :
  Buffer_from (0%N :: rest) = 0%N :: Buffer_from rest.
Proof. reflexivity. Qed.

Lemma Buffer_from_unit (c : N) (s : JsString) :
  Buffer_from (c :: s) =
  if is_high_surrogate c then
    match s with
    | d :: s'' =>
        if is_low_surrogate d
        then utf8_of_code_point
               (0x10000 + (c - 0xD800) * 0x400 + (d - 0xDC00))%N
             ++ Buffer_from s''
        else replacement_character ++ Buffer_from s
    | [] => replacement_character
    end
  else if is_low_surrogate c then replacement_character ++ Buffer_from s
  else utf8_of_code_point c ++ Buffer_from s.
Proof. destruct s; reflexivity. Qed.

Lemma Buffer_from_character (x rest : JsString) :
  is_character x ->
  Buffer_from (x ++ 0%N :: rest) = Buffer_from x ++ 0%N :: Buffer_from rest.
Proof.
  intros [[c ->] | (c & d & -> & Hc & Hd)].
  - change ([c] ++ 0%N :: rest) with (c :: 0%N :: rest).
    rewrite (Buffer_from_unit c (0%N :: rest)), (Buffer_from_unit c []).
    change (is_low_surrogate 0) with false. cbv iota.
    rewrite Buffer_from_null.
    change (Buffer_from []) with (@nil N).
    destruct (is_high_surrogate c); [reflexivity|].
    destruct (is_low_surrogate c); rewrite app_nil_r; reflexivity.
  - change ([c; d] ++ 0%N :: rest) with (c :: d :: 0%N :: rest).
    rewrite (Buffer_from_unit c (d :: 0%N :: rest)),
      (Buffer_from_unit c [d]).
    cbv iota. rewrite Hc, Hd, Buffer_from_null.
    change (Buffer_from []) with (@nil N). rewrite app_nil_r.
    reflexivity.
Qed.

(** The buffer [authenticate] hashes first is the password with one null
    byte after every character. *)
Lemma nullAppendedPassword_null_padded (password : JsString) :
  nullAppendedPassword password = null_padded password.
Proof.
  unfold nullAppendedPassword, null_padded, join.
  induction (spread_characters password) as [|x l Hx Hl IH];
    [reflexivity|].
  cbn [map List.concat flat_map]. rewrite <- app_assoc.
  change ([0%N] ++ List.concat (map (fun x0 => x0 ++ [0%N]) l))
    with (0%N :: List.concat (map (fun x0 => x0 ++ [0%N]) l)).
  rewrite (Buffer_from_character _ Hx), IH, <- app_assoc. reflexivity.
Qed.

Lemma Buffer_equals_eq (a b : Buffer) : Buffer_equals a b = true <-> a = b.
Proof.
  revert b. induction a as [|x a IH]; intros [|y b]; simpl;
    try (split; [discriminate | discriminate]); [tauto|].
  rewrite andb_true_iff, N.eqb_eq, IH. split.
  - intros [-> ->]. reflexivity.
  - intros E. inversion E. auto.
Qed.

(* ---------------------------------------------------------------- *)
(** *** Authentication *)

Lemma filter_map_same_key {A} (p : A -> bool) (f : A -> A) (l : list A) :
  (forall x, p (f x) = p x) ->
  filter p (map f l) = map f (filter p l).
Proof.
  intros Hp. induction l as [|x l IH]; [reflexivity|]. simpl.
  rewrite Hp. destruct (p x); simpl; rewrite IH; reflexivity.
Qed.

Lemma users_update_users userIdx set d :
  users (update_users userIdx set d) = map (updated userIdx set) (users d).
Proof. reflexivity. Qed.

Lemma has_username_updated username userIdx set u :
  (forall x, u_username (set x) = u_username x) ->
  has_username username (updated userIdx set u) = has_username username u.
Proof.
  intros Hset. unfold updated, has_username.
  destruct (has_idx userIdx u); [rewrite Hset|]; reflexivity.
Qed.

Lemma has_idx_updated userIdx' userIdx set u :
  (forall x, u_idx (set x) = u_idx x) ->
  has_idx userIdx' (updated userIdx set u) = has_idx userIdx' u.
Proof.
  intros Hset. unfold updated, has_idx.
  destruct (u_idx u =? userIdx); [rewrite Hset|]; reflexivity.
Qed.

Lemma has_idx_self u : has_idx (u_idx u) u = true.
Proof. apply Z.eqb_refl. Qed.

(** [authenticate] up to the activation test. *)
Lemma authenticate_lookup (w : World) salt username password :
  authenticate salt username password w =
  let w1 := issued SqlSelectUserForAuthentication w in
  match filter (has_username username) (users (db w)) with
  | [] => (Err NoSuchEntryError, w1)
  | row :: _ =>
      if u_activated row then
        (phcObject <- lift (phc_deserialize (u_password_digest row)) ;;
         (if includes legacy_ids (phc_id phcObject) then
            let hash :=
              createHash
                (if String.eqb (phc_id phcObject) "mssql-sha1"
                 then "sha1" else "sha512") in
            hash <- lift (hash_update hash
                            (Some (nullAppendedPassword password))) ;;
            hash <- lift (hash_update hash (phc_salt phcObject)) ;;
            same <- lift (equals (hash_digest hash) (phc_hash phcObject)) ;;
            if negb same then throw AuthenticationError
            else (changePassword salt (u_idx row) password ;; ret tt)
          else
            verified <- lift (argon2_verify (u_password_digest row)
                                password) ;;
            if negb verified then throw AuthenticationError else ret tt) ;;
         updateLastLoginAt (u_idx row) ;;
         ret (u_idx row)) w1
      else (Err NotActivatedError, w1)
  end.
Proof.
  unfold authenticate. rewrite bind_run, query_run. cbn [tr tr_db].
  fold (db w). fold (issued SqlSelectUserForAuthentication w).
  destruct (filter (has_username username) (users (db w))) as [|row rest];
    [reflexivity|].
  destruct (u_activated row); reflexivity.
Qed.

Lemma legacy_primitive_some id primitive :
  legacy_primitive id = Some primitive ->
  includes legacy_ids id = true /\
  hash_primitive
    (createHash (if String.eqb id "mssql-sha1" then "sha1" else "sha512"))
  = primitive.
Proof.
  unfold legacy_primitive, includes, legacy_ids, createHash.
  cbn [existsb hash_primitive].
  destruct (String.eqb id "mssql-sha1") eqn:E1.
  - intros E. inversion E. split; reflexivity.
  - destruct (String.eqb id "mssql-sha512") eqn:E2; [|discriminate].
    intros E. inversion E. rewrite orb_true_r. split; reflexivity.
Qed.

(** The world after a [changePassword] that found the row. *)
Lemma changePassword_found (w : World) salt userIdx newPassword idx rest :
  returning_idx userIdx (db w) = idx :: rest ->
  changePassword salt userIdx newPassword w =
  (Ok idx,
   mkWorld (this w)
     (mkTransaction
        (update_users userIdx
           (set_password_digest (argon2_hash salt newPassword)) (db w))
        (tr_locks (tr w)) (tr_now (tr w))
        (tr_issued (tr w) ++ [SqlUpdatePasswordDigest]))).
Proof.
  intros E. unfold changePassword. rewrite bind_run, query_run.
  cbn [tr tr_db]. fold (db w). rewrite E. reflexivity.
Qed.

Lemma returning_idx_found userIdx (w : World) row :
  In row (users (db w)) -> u_idx row = userIdx ->
  exists idx rest, returning_idx userIdx (db w) = idx :: rest.
Proof.
  intros Hin Hidx. unfold returning_idx.
  destruct (filter (has_idx userIdx) (users (db w))) as [|x l] eqn:E.
  - assert (In row (filter (has_idx userIdx) (users (db w)))) as Hf.
    { apply filter_In. split; [assumption|]. unfold has_idx.
      apply Z.eqb_eq. assumption. }
    rewrite E in Hf. destruct Hf.
  - simpl. eauto.
Qed.

(** [authenticate] on an activated account whose digest has a legacy tag,
    a salt and a hash. *)
Lemma authenticate_legacy_run
    (w : World) (salt : Buffer) (username : string) (password : JsString)
    (row : UserRow) (rest : list UserRow) (phcObject : PhcObject)
    (primitive : Buffer -> Buffer) (storedSalt storedHash : Buffer) :
  filter (has_username username) (users (db w)) = row :: rest ->
  u_activated row = true ->
  phc_deserialize (u_password_digest row) = Ok phcObject ->
  legacy_primitive (phc_id phcObject) = Some primitive ->
  phc_salt phcObject = Some storedSalt ->
  phc_hash phcObject = Some storedHash ->
  authenticate salt username password w =
  let w1 := issued SqlSelectUserForAuthentication w in
  if Buffer_equals (primitive (null_padded password ++ storedSalt))
       storedHash
  then (changePassword salt (u_idx row) password ;;
        updateLastLoginAt (u_idx row) ;;
        ret (u_idx row)) w1
  else (Err AuthenticationError, w1).
Proof.
  intros Hrows Hactivated Hphc Hprimitive Hsalt Hhash.
  destruct (legacy_primitive_some _ Hprimitive) as [Hlegacy Hcreate].
  rewrite authenticate_lookup, Hrows, Hactivated. cbv zeta.
  rewrite bind_run. unfold lift at 1. rewrite Hphc, Hlegacy.
  rewrite Hsalt, Hhash, nullAppendedPassword_null_padded.
  unfold bind, lift, hash_update, equals, hash_digest.
  cbn [hash_primitive hash_data]. rewrite Hcreate.
  unfold createHash. cbn [hash_data app].
  destruct (Buffer_equals (primitive (null_padded password ++ storedSalt))
              storedHash); cbn [negb].
  - unfold ret.
    destruct (changePassword salt (u_idx row) password
                (issued SqlSelectUserForAuthentication w)) as [[i|e] w'];
      reflexivity.
  - reflexivity.
Qed.

Lemma updateLastLoginAt_run (w : World) userIdx :
  updateLastLoginAt userIdx w =
  (Ok tt,
   mkWorld (this w)
     (mkTransaction
        (update_users userIdx (set_last_login_at (Some (tr_now (tr w))))
           (db w))
        (tr_locks (tr w)) (tr_now (tr w))
        (tr_issued (tr w) ++ [SqlUpdateLastLoginAt]))).
Proof. reflexivity. Qed.

(** The two outcomes of [authenticate] on a legacy digest. *)
Lemma authenticate_legacy_cases
    (w : World) (salt : Buffer) (username : string) (password : JsString)
    (row : UserRow) (rest : list UserRow) (phcObject : PhcObject)
    (primitive : Buffer -> Buffer) (storedSalt storedHash : Buffer) :
  filter (has_username username) (users (db w)) = row :: rest ->
  u_activated row = true ->
  phc_deserialize (u_password_digest row) = Ok phcObject ->
  legacy_primitive (phc_id phcObject) = Some primitive ->
  phc_salt phcObject = Some storedSalt ->
  phc_hash phcObject = Some storedHash ->
  let computed := primitive (null_padded password ++ storedSalt) in
  (computed = storedHash ->
   exists w' row' rest',
     authenticate salt username password w = (Ok (u_idx row), w') /\
     filter (has_username username) (users (db w')) = row' :: rest' /\
     u_idx row' = u_idx row /\
     u_password_digest row' = argon2_hash salt password) /\
  (computed <> storedHash ->
   authenticate salt username password w
   = (Err AuthenticationError, issued SqlSelectUserForAuthentication w)).
Proof.
  intros Hrows Hactivated Hphc Hprimitive Hsalt Hhash computed.
  rewrite (authenticate_legacy_run w salt username password Hrows Hactivated
             Hphc Hprimitive Hsalt Hhash).
  cbv zeta. fold computed. split.
  - intros Hsame. apply Buffer_equals_eq in Hsame. rewrite Hsame.
    assert (In row (users (db w))) as Hin.
    { assert (In row (filter (has_username username) (users (db w))))
        as Hf by (rewrite Hrows; left; reflexivity).
      apply filter_In in Hf. tauto. }
    destruct (@returning_idx_found (u_idx row)
                (issued SqlSelectUserForAuthentication w) row Hin eq_refl)
      as (idx & more & Hret).
    rewrite bind_run, (@changePassword_found _ salt _ password _ _ Hret).
    rewrite bind_run, updateLastLoginAt_run. unfold ret.
    eexists. eexists. eexists. split; [reflexivity|].
    cbn [db tr tr_db issued]. rewrite !users_update_users.
    rewrite !filter_map_same_key
      by (intros x; apply has_username_updated; reflexivity).
    fold (db w). rewrite Hrows. cbn [map]. split; [reflexivity|].
    unfold updated. rewrite has_idx_self. unfold has_idx.
    cbn [set_password_digest u_idx]. rewrite Z.eqb_refl.
    split; reflexivity.
  - intros Hdiffer.
    destruct (Buffer_equals computed storedHash) eqn:E.
    + apply Buffer_equals_eq in E. contradiction.
    + reflexivity.
Qed.

(** C4.  Let the first account with the user name be activated and its
    digest carry a legacy tag, a salt and a hash.  [authenticate] hashes
    the password with one null byte after every character (the
    characters being the pieces the string iterator cuts the password
    into), followed by the stored salt, under the primitive the tag
    selects, and compares the outcome with the stored hash byte by byte.
    When the two are the same it returns the account's [idx], and the
    digest stored for the account is then the one [argon2.hash] gives for
    the password; when they differ it throws [AuthenticationError] and no
    table has changed. *)
Theorem authenticate_legacy_digest
    (w : World) (salt : Buffer) (username : string) (password : JsString)
    (row : UserRow) (rest : list UserRow) (phcObject : PhcObject)
    (primitive : Buffer -> Buffer) (storedSalt storedHash : Buffer) :
  filter (has_username username) (users (db w)) = row :: rest ->
  u_activated row = true ->
  phc_deserialize (u_password_digest row) = Ok phcObject ->
  legacy_primitive (phc_id phcObject) = Some primitive ->
  phc_salt phcObject = Some storedSalt ->
  phc_hash phcObject = Some storedHash ->
  let computed := primitive (null_padded password ++ storedSalt) in
  join (spread password) = password /\
  nullAppendedPassword password = null_padded password /\
  (computed = storedHash ->
   exists w' row' rest',
     authenticate salt username password w = (Ok (u_idx row), w') /\
     filter (has_username username) (users (db w')) = row' :: rest' /\
     u_idx row' = u_idx row /\
     u_password_digest row' = argon2_hash salt password) /\
  (computed <> storedHash ->
   authenticate salt username password w
   = (Err AuthenticationError, issued SqlSelectUserForAuthentication w)).
Proof.
  intros Hrows Hactivated Hphc Hprimitive Hsalt Hhash computed.
  split; [apply join_spread|].
  split; [apply nullAppendedPassword_null_padded|].
  exact (authenticate_legacy_cases w salt username password Hrows
           Hactivated Hphc Hprimitive Hsalt Hhash).
Qed.

Lemma changePassword_world (w : World) salt userIdx newPassword r w' :
  changePassword salt userIdx newPassword w = (r, w') ->
  tr_now (tr w') = tr_now (tr w) /\
  users (db w')
  = map (updated userIdx
           (set_password_digest (argon2_hash salt newPassword)))
      (users (db w)).
Proof.
  unfold changePassword. rewrite bind_run, query_run. cbn [tr tr_db].
  destruct (returning_idx userIdx (tr_db (tr w)));
    intros E; inversion E; split; reflexivity.
Qed.

Lemma in_map_updated userIdx set (l : list UserRow) u :
  (forall x, u_idx (set x) = u_idx x) ->
  In u (map (updated userIdx set) l) -> u_idx u = userIdx ->
  exists x, In x l /\ u = set x.
Proof.
  intros Hset Hin Hidx. apply in_map_iff in Hin.
  destruct Hin as (x & <- & Hx). exists x. split; [assumption|].
  unfold updated in *. unfold has_idx in *.
  destruct (u_idx x =? userIdx) eqn:E; [reflexivity|].
  apply Z.eqb_neq in E. contradiction.
Qed.

Lemma in_map_updated_self set (l : list UserRow) row :
  In row l -> In (set row) (map (updated (u_idx row) set) l).
Proof.
  intros Hin. apply in_map_iff. exists row. split; [|assumption].
  unfold updated. rewrite has_idx_self. reflexivity.
Qed.

(** After [updateLastLoginAt] the rows with the [idx] carry the time of
    the transaction, and there is such a row when there was one. *)
Lemma updateLastLoginAt_rows (w2 : World) (us : list UserRow) row :
  users (db w2) = us -> In row us ->
  let w' := snd (updateLastLoginAt (u_idx row) w2) in
  (exists u, In u (users (db w')) /\ u_idx u = u_idx row) /\
  (forall u, In u (users (db w')) -> u_idx u = u_idx row ->
             u_last_login_at u = Some (tr_now (tr w2))).
Proof.
  intros Hus Hin w'. subst w'. rewrite updateLastLoginAt_run.
  cbn [snd db tr tr_db]. rewrite users_update_users. fold (db w2).
  rewrite Hus. split.
  - exists (set_last_login_at (Some (tr_now (tr w2))) row).
    split; [apply in_map_updated_self; assumption | reflexivity].
  - intros u Hu Hidx.
    destruct (@in_map_updated (u_idx row)
                (set_last_login_at (Some (tr_now (tr w2)))) us u
                (fun x => eq_refl) Hu Hidx)
      as (x & _ & ->).
    reflexivity.
Qed.

(** C3.  [authenticate] throws [NoSuchEntryError] when no row of [users]
    has the user name.  Otherwise, with [row] the first such row: when
    the row is not activated it throws [NotActivatedError], whatever the
    password and the digest are; when the row is activated and the digest
    does not verify (a legacy digest whose hash differs from the computed
    one, or a digest that [argon2.verify] rejects) it throws
    [AuthenticationError]; when the digest verifies it returns; and
    whenever it returns, the value is the [idx] of the row and the rows
    with that [idx] carry the time of the transaction in
    [last_login_at]. *)
Theorem authenticate_outcomes
    (w : World) (salt : Buffer) (username : string) (password : JsString) :
  let w1 := issued SqlSelectUserForAuthentication w in
  let rows := filter (has_username username) (users (db w)) in
  (rows = [] ->
   authenticate salt username password w = (Err NoSuchEntryError, w1)) /\
  (forall row rest,
      rows = row :: rest ->
      (u_activated row = false ->
       authenticate salt username password w = (Err NotActivatedError, w1))
      /\
      (u_activated row = true ->
       forall phcObject,
         phc_deserialize (u_password_digest row) = Ok phcObject ->
         (forall primitive storedSalt storedHash,
             legacy_primitive (phc_id phcObject) = Some primitive ->
             phc_salt phcObject = Some storedSalt ->
             phc_hash phcObject = Some storedHash ->
             (primitive (null_padded password ++ storedSalt) <> storedHash
              -> authenticate salt username password w
                 = (Err AuthenticationError, w1)) /\
             (primitive (null_padded password ++ storedSalt) = storedHash
              -> exists w',
                 authenticate salt username password w
                 = (Ok (u_idx row), w')))
         /\
         (legacy_primitive (phc_id phcObject) = None ->
          (argon2_verify (u_password_digest row) password = Ok false ->
           authenticate salt username password w
           = (Err AuthenticationError, w1)) /\
          (argon2_verify (u_password_digest row) password = Ok true ->
           exists w',
             authenticate salt username password w
             = (Ok (u_idx row), w'))))
      /\
      (forall idx w',
          authenticate salt username password w = (Ok idx, w') ->
          idx = u_idx row /\ u_activated row = true /\
          (exists u, In u (users (db w')) /\ u_idx u = idx) /\
          (forall u, In u (users (db w')) -> u_idx u = idx ->
                     u_last_login_at u = Some (tr_now (tr w))))).
Proof.
  intros w1 rows. split.
  - intros Hrows. rewrite authenticate_lookup. fold rows. rewrite Hrows.
    reflexivity.
  - intros row rest Hrows.
    assert (In row (users (db w))) as Hin.
    { assert (In row rows) as Hf by (rewrite Hrows; left; reflexivity).
      apply filter_In in Hf. tauto. }
    split; [|split].
    + intros Hact. rewrite authenticate_lookup. fold rows.
      rewrite Hrows, Hact. reflexivity.
    + intros Hact phcObject Hphc. split.
      * intros primitive storedSalt storedHash Hprim Hsalt Hhash.
        destruct (authenticate_legacy_cases w salt username password
                    Hrows Hact Hphc Hprim Hsalt Hhash) as [Hsame Hdiffer].
        split; [exact Hdiffer|]. intros E.
        destruct (Hsame E) as (w' & _ & _ & Hrun & _). eauto.
      * intros Hcurrent.
        assert (includes legacy_ids (phc_id phcObject) = false) as Hinc.
        { unfold legacy_primitive in Hcurrent.
          unfold includes, legacy_ids. cbn [existsb].
          destruct (String.eqb (phc_id phcObject) "mssql-sha1");
            [discriminate|].
          destruct (String.eqb (phc_id phcObject) "mssql-sha512");
            [discriminate | reflexivity]. }
        assert (authenticate salt username password w =
                match argon2_verify (u_password_digest row) password with
                | Ok verified =>
                    if negb verified then (Err AuthenticationError, w1)
                    else (Ok (u_idx row),
                          snd (updateLastLoginAt (u_idx row) w1))
                | Err e => (Err e, w1)
                end) as Hrun.
        { rewrite authenticate_lookup. fold rows. rewrite Hrows, Hact.
          cbv zeta. rewrite bind_run. unfold lift at 1.
          rewrite Hphc. cbv beta iota. rewrite Hinc. unfold bind, lift.
          destruct (argon2_verify (u_password_digest row) password)
            as [[|]|e]; reflexivity. }
        rewrite Hrun.
        split; intros ->; cbn [negb]; [reflexivity|].
        eexists. reflexivity.
    + intros idx w'. rewrite authenticate_lookup. fold rows.
      rewrite Hrows. cbv zeta.
      destruct (u_activated row); [|discriminate].
      rewrite bind_run. unfold lift at 1.
      destruct (phc_deserialize (u_password_digest row)) as [o|e];
        [|discriminate].
      rewrite bind_run.
      match goal with
      | |- context [let (r, w0) := ?check ?w1 in _] =>
          destruct (check w1) as [[[]|e] w2] eqn:Echeck
      end; [|discriminate].
      rewrite bind_run.
      pose proof (updateLastLoginAt_rows w2) as Hlogin.
      destruct (updateLastLoginAt (u_idx row) w2) as [[[]|e] w3] eqn:Eupd;
        [|discriminate].
      unfold ret. intros E. inversion E; subst idx w3. clear E.
      split; [reflexivity|]. split; [reflexivity|].
      assert (tr_now (tr w2) = tr_now (tr w) /\
              exists row2, In row2 (users (db w2)) /\
                           u_idx row2 = u_idx row) as [Hnow Hrow2].
      { revert Echeck.
        destruct (includes legacy_ids (phc_id o)).
        - cbv zeta. unfold bind, lift, hash_update, equals, throw.
          destruct (phc_salt o); [|discriminate].
          destruct (phc_hash o); [|discriminate].
          destruct (negb _); [discriminate|]. fold w1.
          destruct (changePassword salt (u_idx row) password w1)
            as [[i|e] wc] eqn:Ecp; [|discriminate].
          unfold ret. intros E. inversion E; subst wc. clear E.
          apply changePassword_world in Ecp. destruct Ecp as [Hn Hu].
          split; [exact Hn|]. rewrite Hu.
          exists (set_password_digest (argon2_hash salt password) row).
          split; [apply in_map_updated_self; exact Hin | reflexivity].
        - unfold bind, lift, throw, ret.
          destruct (argon2_verify (u_password_digest row) password)
            as [v|e]; [|discriminate].
          destruct (negb v); [discriminate|].
          intros E. inversion E. split; [reflexivity|].
          exists row. split; [exact Hin | reflexivity]. }
      destruct Hrow2 as (row2 & Hin2 & Hidx2).
      specialize (Hlogin _ row2 eq_refl Hin2). rewrite Hidx2 in Hlogin.
      rewrite Eupd in Hlogin. cbn [snd] in Hlogin. rewrite Hnow in Hlogin.
      exact Hlogin.
Qed.

End Properties.

(* ================================================================== *)
(** ** The methods on the sample world *)

(** The UIDs 10, 11 and 13 are in use and the floor is 10. *)
Example generateUid_reuses_gap :
  generateUid sample_config ensureHasAccessExclusiveLock_held sample_world
  = (Ok (Some 12), issued SqlGapScan sample_world).
Proof. reflexivity. Qed.

Example generateUid_without_lock :
  generateUid sample_config ensureHasAccessExclusiveLock_held unlocked_world
  = (Err (JsError "no access exclusive lock"), unlocked_world).
Proof. reflexivity. Qed.

(** The letter a followed by U+1F600, which takes a surrogate pair. *)
Example nullAppendedPassword_surrogate_pair :
  nullAppendedPassword [97; 0xD83D; 0xDE00]%N
  = [97; 0; 240; 159; 152; 128; 0]%N.
Proof. reflexivity. Qed.

(** [carol] has no user name and is left out of the directory. *)
Example getAllAsPosixAccounts_sample :
  match getAllAsPosixAccounts sample_config ["posixAccount"] uncached_world with
  | (Ok entries, _) =>
      map dn entries
      = ["cn=alice,ou=users,dc=example,dc=com";
         "cn=bob,ou=users,dc=example,dc=com"]
  | (Err _, _) => False
  end.
Proof. reflexivity. Qed.

(** A second request while the token of the user 1 is live. *)
Example getResendCount_sample :
  fst ((token <- generatePasswordChangeToken sample_schema [171%N] 600 1 ;;
        getResendCount token)%method sample_world)
  = Ok 3.
Proof. reflexivity. Qed.

(* ================================================================== *)
(** ** The properties on the sample world *)


(** The user 1 holds a live token with resend count 2; a new request makes
    it 3. *)
Lemma generatePasswordChangeToken_resend_count_witness :
  find (has_user_idx 1) (password_change_tokens (db sample_world))
  = Some (mkTokenRow 1 1 "aa" 1000 2) /\
  tr_now (tr sample_world) < 1000 /\
  exists w' r',
    generatePasswordChangeToken sample_schema [171%N] 600 1 sample_world
    = (Ok "ab", w') /\
    find (has_user_idx 1) (password_change_tokens (db w')) = Some r' /\
    t_resend_count r' = 3.
Proof.
  split; [reflexivity|]. split; [reflexivity|].
  destruct (@generatePasswordChangeToken_resend_count sample_schema
              sample_world [171%N] 600 1 (mkTokenRow 1 1 "aa" 1000 2) eq_refl)
    as (w' & r' & Hrun & Hfind & _ & _ & Hlive & _).
  exists w', r'. split; [exact Hrun|]. split; [exact Hfind|].
  exact (Hlive eq_refl).
Defined.

(** The user 2 holds a token that expired at 100, with resend count 5; the
    request at 500 leaves the count at 1, not at 0. *)
Lemma reissue_after_expiry_counts_one :
  exists r w' r',
    find (has_user_idx 2) (password_change_tokens (db sample_world)) = Some r
    /\ t_expires r <= tr_now (tr sample_world)
    /\ generatePasswordChangeToken sample_schema [171%N] 600 2 sample_world
       = (Ok "ab", w')
    /\ find (has_user_idx 2) (password_change_tokens (db w')) = Some r'
    /\ t_resend_count r' = 1
    /\ t_resend_count r' <> 0.
Proof.
  exists (mkTokenRow 2 2 "bb" 100 5),
    (snd (generatePasswordChangeToken sample_schema [171%N] 600 2
            sample_world)),
    (mkTokenRow 2 2 "ab" (600 + one_day) 1).
  split; [reflexivity|]. split; [discriminate|]. split; [reflexivity|].
  split; [reflexivity|]. split; [reflexivity | discriminate].
Qed.

(** [bob] is deactivated and the password given is his: the outcome is
    [NotActivatedError]. *)
Lemma authenticate_outcomes_witness :
  filter (has_username "bob") (users (db sample_world)) = [bob] /\
  u_activated bob = false /\
  argon2_verify (Crypto := toy_crypto) (u_password_digest bob) sample_password
  = Ok true /\
  authenticate (crypto := toy_crypto) [] "bob" sample_password sample_world
  = (Err NotActivatedError, issued SqlSelectUserForAuthentication sample_world).
Proof.
  split; [reflexivity|]. split; [reflexivity|]. split; [reflexivity|].
  exact (proj1
           (proj2
              (@authenticate_outcomes toy_crypto sample_world [] "bob"
                 sample_password)
              bob [] eq_refl)
           eq_refl).
Defined.

(** [alice] has the legacy digest and gives her password: she is let in and
    her digest is migrated. *)
Lemma authenticate_legacy_digest_witness :
  filter (has_username "alice") (users (db sample_world)) = [alice] /\
  sha1 (Crypto := toy_crypto) (null_padded sample_password ++ [7%N])
  = [112; 0; 119; 0; 7]%N /\
  exists w' row' rest',
    authenticate (crypto := toy_crypto) [9%N] "alice" sample_password
      sample_world = (Ok 1, w') /\
    filter (has_username "alice") (users (db w')) = row' :: rest' /\
    u_idx row' = 1 /\
    u_password_digest row' = toy_argon2_hash [9%N] sample_password.
Proof.
  split; [reflexivity|]. split; [reflexivity|].
  exact (proj1
           (proj2
              (proj2
                 (@authenticate_legacy_digest toy_crypto sample_world [9%N]
                    "alice" sample_password alice []
                    (mkPhcObject "mssql-sha1" (Some [7%N])
                       (Some [112; 0; 119; 0; 7]%N))
                    (sha1 (Crypto := toy_crypto)) [7%N]
                    [112; 0; 119; 0; 7]%N
                    eq_refl eq_refl eq_refl eq_refl eq_refl eq_refl)))
           eq_refl).
Defined.

(** The host [lab] is in a group that requires the permission 7; the user
    2, who does not hold it, is refused. *)
Lemma authorizeUserByHost_decision_witness :
  hostGroupIdx lab_host = Some 1 /\
  getHostGroupByIdx 1 sample_world
  = (Ok (mkHostGroup 1 "lab" (Some 7)), issued SqlSelectHostGroup sample_world)
  /\
  only_user_one 2 7 (issued SqlSelectHostGroup sample_world)
  = (Ok false, issued SqlSelectHostGroup sample_world) /\
  authorizeUserByHost only_user_one 2 lab_host sample_world
  = (Err AuthorizationError, issued SqlSelectHostGroup sample_world).
Proof.
  split; [reflexivity|]. split; [reflexivity|]. split; [reflexivity|].
  exact (proj2
           (proj2
              (@authorizeUserByHost_decision only_user_one sample_world 2
                 lab_host)
              1 (mkHostGroup 1 "lab" (Some 7))
              (issued SqlSelectHostGroup sample_world) eq_refl eq_refl)
           7 false (issued SqlSelectHostGroup sample_world) eq_refl eq_refl).
Defined.

(** On the empty cache the directory is built although [carol] has no user
    name. *)
Lemma usersToPosixAccounts_skips_unprojectable_witness :
  posixAccountsCache (this uncached_world) = None /\
  u_username carol = None /\
  exists entries w',
    getAllAsPosixAccounts sample_config ["posixAccount"] uncached_world
    = (Ok entries, w').
Proof.
  split; [reflexivity|]. split; [reflexivity|].
  destruct (proj2
              (proj2
                 (@usersToPosixAccounts_skips_unprojectable sample_config
                    ["posixAccount"] [] uncached_world))
              eq_refl)
    as (entries & Hrun & _).
  exists entries. eexists. exact Hrun.
Defined.

(** A [changeShell] on [bob] that returns leaves the cache empty. *)
Lemma cache_cleared_by_create_delete_changeShell_witness :
  exists idx w',
    changeShell 2 "/bin/zsh" sample_world = (Ok idx, w') /\
    this w' = mkUsers (usersDN (this sample_world)) None.
Proof.
  exists 2, (snd (changeShell 2 "/bin/zsh" sample_world)).
  split; [reflexivity|].
  exact (proj1
           (proj2
              (proj2
                 (@cache_cleared_by_create_delete_changeShell sample_config
                    toy_crypto sample_schema ensureHasAccessExclusiveLock_held
                    sample_world [] "dave" sample_password "Dave" "/bin/sh" ko
                    2 "/bin/zsh" sample_password)))
           2 (snd (changeShell 2 "/bin/zsh" sample_world)) eq_refl).
Defined.

Lemma no_user_99 : no_such_user 99 sample_world.
Proof.
  intros u [<-|[<-|[<-|[]]]]; discriminate.
Defined.

(** No account has the [idx] 99: [activate] returns and changes nothing,
    [delete] throws. *)
Lemma status_updates_ignore_missing_row_witness :
  no_such_user 99 sample_world /\
  activate 99 sample_world = (Ok tt, issued SqlActivate sample_world) /\
  fst (delete 99 sample_world) = Err NoSuchEntryError.
Proof.
  split; [exact no_user_99|].
  destruct (proj2
              (proj2
                 (proj2
                    (@status_updates_ignore_missing_row toy_crypto
                       sample_world 99 [] sample_password "/bin/sh")))
              no_user_99)
    as (Hactivate & _ & _ & Hdelete & _).
  split; [exact Hactivate | exact Hdelete].
Defined.



(* ================================================================== *)
(** ** Further properties: UID allocation and account creation *)

Lemma list_maximum (l : list Z) (u : Z) :
  In u l -> exists m, In m l /\ u <= m /\ forall x, In x l -> x <= m.
Proof.
  revert u. induction l as [|y l IH]; intros u Hu; [destruct Hu|].
  destruct l as [|z l'].
  - destruct Hu as [->|[]]. exists u. split; [left; reflexivity|].
    split; [lia|]. intros x [->|[]]. lia.
  - destruct (IH z (or_introl eq_refl)) as (m & Hm & _ & Hall).
    destruct (Z_le_gt_dec y m).
    + exists m. split; [right; exact Hm|]. split.
      * destruct Hu as [->|Hu]; [assumption | apply Hall, Hu].
      * intros x [->|Hx]; [assumption | apply Hall, Hx].
    + exists y. split; [left; reflexivity|]. split.
      * destruct Hu as [->|Hu]; [lia | specialize (Hall u Hu); lia].
      * intros x [->|Hx]; [lia | specialize (Hall x Hx); lia].
Qed.

(** What the scan and the fallback give is at least the floor and not in
    use. *)
Lemma gap_scan_unused (us : list UserRow) (floor : Z) :
  exists v,
    match gap_scan us floor with
    | row :: _ => row
    | [] => Some floor
    end = Some v /\ floor <= v /\ ~ In v (uids us).
Proof.
  pose proof (gap_scan_least us floor) as Hscan.
  destruct (gap_scan us floor) as [|row rest].
  - exists floor. split; [reflexivity|]. split; [lia|]. intros Hin.
    destruct (list_maximum _ _ Hin) as (m & Hm & Hle & Hall).
    apply (Hscan (m + 1)). split; [lia|]. split.
    + replace (m + 1 - 1) with m by lia. exact Hm.
    + intros Hin'. apply Hall in Hin'. lia.
  - destruct Hscan as (_ & c & -> & (Hfloor & _ & Hfree) & _).
    exists c. split; [reflexivity|]. split; assumption.
Qed.

Lemma NoDup_snoc {A} (l : list A) (x : A) :
  NoDup l -> ~ In x l -> NoDup (l ++ [x]).
Proof.
  induction 1 as [|y l Hy Hl IH]; intros Hx; simpl.
  - constructor; [intros [] | constructor].
  - constructor.
    + intros Hin. apply in_app_or in Hin.
      destruct Hin as [Hin|[->|[]]]; [contradiction|].
      apply Hx. left. reflexivity.
    + apply IH. intros Hin. apply Hx. right. exact Hin.
Qed.

Lemma uids_app (l1 l2 : list UserRow) : uids (l1 ++ l2) = uids l1 ++ uids l2.
Proof. unfold uids. apply flat_map_app. Qed.

Section AccountCreation.

Variable config : Config.
Context {crypto : Crypto}.
Variable schema : Schema.
Variable ensureHasAccessExclusiveLock : Transaction -> string -> result unit.


(** A [create] that returns has passed the lock check and the constraints,
    and has appended one row that carries a UID at least the floor and not
    in use before. *)
Lemma create_returns (w : World) salt username password name shell
    preferredLanguage idx w' :
  create config schema ensureHasAccessExclusiveLock salt username password
    name shell preferredLanguage w = (Ok idx, w') ->
  exists v,
    minUid (posix config) <= v /\ ~ In v (uids (users (db w))) /\
    idx = users_idx_seq (db w) /\
    this w' = mkUsers (usersDN (this w)) None /\
    tr_now (tr w') = tr_now (tr w) /\
    tr_locks (tr w') = tr_locks (tr w) /\
    db w'
    = set_users (set_users_idx_seq (db w) (idx + 1))
        (users (db w)
         ++ [mkUserRow idx (Some username) (argon2_hash salt password) name
               (Some v) (Some shell) preferredLanguage
               (default_activated schema) (default_last_login_at schema)]).
Proof.
  unfold create. rewrite bind_run, generateUid_run.
  destruct (ensureHasAccessExclusiveLock (tr w) "users"); [|discriminate].
  destruct (gap_scan_unused (users (db w)) (minUid (posix config)))
    as (v & -> & Hfloor & Hfree).
  rewrite bind_run, query_run. unfold insert_user. cbn [tr tr_db].
  fold (db w).
  destruct (users_constraints schema (users (db w)) _); [|discriminate].
  rewrite bind_run. unfold assign_posixAccountsCache, set_cache, ret.
  cbn [tr this]. intros E. inversion E. subst idx w'. clear E.
  exists v. repeat split; assumption.
Qed.

(** X2.  A [create] that returns keeps the UIDs distinct and at least the
    floor: the new account's UID is at least the floor and differs from
    every UID that was in use, so a table whose UIDs are pairwise distinct
    (and at least the floor) stays so. *)
Theorem create_keeps_uids_distinct (w : World) salt username password name
    shell preferredLanguage idx w' :
  create config schema ensureHasAccessExclusiveLock salt username password
    name shell preferredLanguage w = (Ok idx, w') ->
  (exists v,
      uids (users (db w')) = uids (users (db w)) ++ [v] /\
      minUid (posix config) <= v /\ ~ In v (uids (users (db w)))) /\
  (NoDup (uids (users (db w))) -> NoDup (uids (users (db w')))) /\
  ((forall u, In u (uids (users (db w))) -> minUid (posix config) <= u) ->
   forall u, In u (uids (users (db w'))) -> minUid (posix config) <= u).
Proof.
  intros Hcreate.
  destruct (create_returns _ _ _ _ _ _ _ Hcreate)
    as (v & Hfloor & Hfree & _ & _ & _ & _ & Hdb).
  assert (uids (users (db w')) = uids (users (db w)) ++ [v]) as Huids.
  { rewrite Hdb. cbn [users set_users]. rewrite uids_app. reflexivity. }
  split; [exists v; auto|]. rewrite Huids. split.
  - intros Hnodup. apply NoDup_snoc; assumption.
  - intros Hall u Hu. apply in_app_or in Hu.
    destruct Hu as [Hu|[<-|[]]]; [apply Hall, Hu | assumption].
Qed.

End AccountCreation.

(* ================================================================== *)
(** ** Further properties: authentication in sequence *)

Lemma filter_none {A} (p : A -> bool) (l : list A) :
  (forall x, In x l -> p x = false) -> filter p l = [].
Proof.
  induction l as [|x l IH]; intros Hall; [reflexivity|]. simpl.
  rewrite (Hall x (or_introl eq_refl)). apply IH. intros y Hy. apply Hall.
  right. exact Hy.
Qed.

Lemma has_username_same username (u : UserRow) :
  u_username u = Some username -> has_username username u = true.
Proof. unfold has_username. intros ->. apply String.eqb_refl. Qed.

Section AuthenticationInSequence.

Variable config : Config.
Context {crypto : Crypto}.
Variable schema : Schema.
Variable ensureHasAccessExclusiveLock : Transaction -> string -> result unit.

(** [authenticate] on an activated account whose digest has no legacy
    tag. *)
Lemma authenticate_current_run
    (w : World) (salt : Buffer) (username : string) (password : JsString)
    (row : UserRow) (rest : list UserRow) (phcObject : PhcObject) :
  filter (has_username username) (users (db w)) = row :: rest ->
  u_activated row = true ->
  phc_deserialize (u_password_digest row) = Ok phcObject ->
  legacy_primitive (phc_id phcObject) = None ->
  authenticate salt username password w =
  let w1 := issued SqlSelectUserForAuthentication w in
  match argon2_verify (u_password_digest row) password with
  | Ok verified =>
      if negb verified then (Err AuthenticationError, w1)
      else (Ok (u_idx row), snd (updateLastLoginAt (u_idx row) w1))
  | Err e => (Err e, w1)
  end.
Proof.
  intros Hrows Hact Hphc Hcurrent.
  assert (includes legacy_ids (phc_id phcObject) = false) as Hinc.
  { unfold legacy_primitive in Hcurrent.
    unfold includes, legacy_ids. cbn [existsb].
    destruct (String.eqb (phc_id phcObject) "mssql-sha1"); [discriminate|].
    destruct (String.eqb (phc_id phcObject) "mssql-sha512");
      [discriminate | reflexivity]. }
  rewrite authenticate_lookup, Hrows, Hact. cbv zeta.
  rewrite bind_run. unfold lift at 1. rewrite Hphc. cbv beta iota.
  rewrite Hinc. unfold bind, lift.
  destruct (argon2_verify (u_password_digest row) password) as [[|]|e];
    reflexivity.
Qed.

(** The world after [authenticate] has verified a legacy digest. *)
Lemma authenticate_legacy_world
    (w : World) (salt : Buffer) (username : string) (password : JsString)
    (row : UserRow) (rest : list UserRow) (phcObject : PhcObject)
    (primitive : Buffer -> Buffer) (storedSalt storedHash : Buffer) :
  filter (has_username username) (users (db w)) = row :: rest ->
  u_activated row = true ->
  phc_deserialize (u_password_digest row) = Ok phcObject ->
  legacy_primitive (phc_id phcObject) = Some primitive ->
  phc_salt phcObject = Some storedSalt ->
  phc_hash phcObject = Some storedHash ->
  primitive (null_padded password ++ storedSalt) = storedHash ->
  authenticate salt username password w =
  (Ok (u_idx row),
   mkWorld (this w)
     (mkTransaction
        (update_users (u_idx row) (set_last_login_at (Some (tr_now (tr w))))
           (update_users (u_idx row)
              (set_password_digest (argon2_hash salt password)) (db w)))
        (tr_locks (tr w)) (tr_now (tr w))
        (tr_issued (tr w)
         ++ [SqlSelectUserForAuthentication; SqlUpdatePasswordDigest;
             SqlUpdateLastLoginAt]))).
Proof.
  intros Hrows Hact Hphc Hprim Hsalt Hhash Hsame.
  rewrite (authenticate_legacy_run w salt username password Hrows Hact Hphc
             Hprim Hsalt Hhash).
  cbv zeta. apply Buffer_equals_eq in Hsame. rewrite Hsame.
  assert (In row (users (db w))) as Hin.
  { assert (In row (filter (has_username username) (users (db w)))) as Hf
      by (rewrite Hrows; left; reflexivity).
    apply filter_In in Hf. tauto. }
  destruct (@returning_idx_found (u_idx row)
              (issued SqlSelectUserForAuthentication w) row Hin eq_refl)
    as (idx & others & Hret).
  rewrite bind_run, (@changePassword_found _ _ salt _ password _ _ Hret).
  rewrite bind_run, updateLastLoginAt_run. unfold ret, issued.
  cbn [db tr tr_db tr_now tr_locks tr_issued this].
  rewrite <- !app_assoc. reflexivity.
Qed.

(** X3.  The account a [create] has just made can log in: when no account
    had the user name before, new accounts are activated by default, and
    the digest [argon2.hash] gave verifies against the password under the
    current algorithm, [authenticate] with that user name and password
    returns the [idx] that [create] returned. *)
Theorem create_then_authenticate
    (w : World) (salt salt' : Buffer) (username : string)
    (password : JsString) (name shell : string)
    (preferredLanguage : Language) (idx : Z) (w' : World)
    (phcObject : PhcObject) :
  create config schema ensureHasAccessExclusiveLock salt username password
    name shell preferredLanguage w = (Ok idx, w') ->
  (forall u, In u (users (db w)) -> has_username username u = false) ->
  default_activated schema = true ->
  phc_deserialize (argon2_hash salt password) = Ok phcObject ->
  legacy_primitive (phc_id phcObject) = None ->
  argon2_verify (argon2_hash salt password) password = Ok true ->
  exists w'', authenticate salt' username password w' = (Ok idx, w'').
Proof.
  intros Hcreate Hfresh Hdefault Hphc Hcurrent Hverify.
  destruct (create_returns _ _ _ _ _ _ _ _ _ _ Hcreate)
    as (v & _ & _ & _ & _ & _ & _ & Hdb).
  set (row := mkUserRow idx (Some username) (argon2_hash salt password) name
                (Some v) (Some shell) preferredLanguage
                (default_activated schema) (default_last_login_at schema))
    in Hdb.
  assert (filter (has_username username) (users (db w')) = [row]) as Hrows.
  { rewrite Hdb. cbn [users set_users]. rewrite filter_app.
    rewrite (@filter_none _ _ _ Hfresh). cbn [filter app].
    rewrite (@has_username_same username row eq_refl). reflexivity. }
  rewrite (authenticate_current_run w' salt' username password Hrows
             Hdefault Hphc Hcurrent).
  cbv zeta. cbn [u_password_digest row]. rewrite Hverify. cbn [negb].
  eexists. reflexivity.
Qed.

(** X4.  Migration happens once.  After [authenticate] has verified a
    legacy digest, and provided the digest [argon2.hash] gave verifies under
    the current algorithm, a second [authenticate] with the same password
    returns the same [idx] without writing a digest: it issues the lookup
    and the login-time update only, and the stored digests are those the
    first call left. *)
Theorem legacy_migration_happens_once
    (w : World) (salt salt' : Buffer) (username : string)
    (password : JsString) (row : UserRow) (rest : list UserRow)
    (phcObject migrated : PhcObject) (primitive : Buffer -> Buffer)
    (storedSalt storedHash : Buffer) :
  filter (has_username username) (users (db w)) = row :: rest ->
  u_activated row = true ->
  phc_deserialize (u_password_digest row) = Ok phcObject ->
  legacy_primitive (phc_id phcObject) = Some primitive ->
  phc_salt phcObject = Some storedSalt ->
  phc_hash phcObject = Some storedHash ->
  primitive (null_padded password ++ storedSalt) = storedHash ->
  phc_deserialize (argon2_hash salt password) = Ok migrated ->
  legacy_primitive (phc_id migrated) = None ->
  argon2_verify (argon2_hash salt password) password = Ok true ->
  exists w1 w2,
    authenticate salt username password w = (Ok (u_idx row), w1) /\
    authenticate salt' username password w1 = (Ok (u_idx row), w2) /\
    tr_issued (tr w2)
    = tr_issued (tr w1)
      ++ [SqlSelectUserForAuthentication; SqlUpdateLastLoginAt] /\
    map u_password_digest (users (db w2))
    = map u_password_digest (users (db w1)).
Proof.
  intros Hrows Hact Hphc Hprim Hsalt Hhash Hsame Hphc2 Hcurrent Hverify.
  rewrite (authenticate_legacy_world w salt username password Hrows Hact Hphc
             Hprim Hsalt Hhash Hsame).
  eexists. eexists. split; [reflexivity|].
  set (w1 := mkWorld _ _).
  set (row1 := set_last_login_at (Some (tr_now (tr w)))
                 (set_password_digest (argon2_hash salt password) row)).
  assert (filter (has_username username) (users (db w1))
          = row1 :: map (updated (u_idx row)
                           (set_last_login_at (Some (tr_now (tr w)))))
                      (map (updated (u_idx row)
                              (set_password_digest
                                 (argon2_hash salt password))) rest))
    as Hrows1.
  { unfold w1. cbn [db tr tr_db]. rewrite !users_update_users.
    rewrite !filter_map_same_key
      by (intros x; apply has_username_updated; reflexivity).
    rewrite Hrows. cbn [map]. f_equal.
    unfold updated. rewrite has_idx_self. unfold has_idx.
    cbn [set_password_digest u_idx]. rewrite Z.eqb_refl. reflexivity. }
  rewrite (authenticate_current_run w1 salt' username password Hrows1 Hact
             Hphc2 Hcurrent).
  cbv zeta. cbn [row1 set_last_login_at set_password_digest u_password_digest
                 u_idx].
  rewrite Hverify. cbn [negb]. split; [reflexivity|].
  rewrite updateLastLoginAt_run. cbn [snd tr tr_issued issued db tr_db].
  split; [rewrite <- app_assoc; reflexivity|].
  rewrite users_update_users, map_map. apply map_ext. intros u.
  unfold updated. destruct (has_idx (u_idx row) u); reflexivity.
Qed.

(** X5.  Once [deactivate] has run on the account that a user name leads
    to, [authenticate] with that user name throws [NotActivatedError]
    whatever the password is; [activate] afterwards makes the account the
    lookup finds an activated one again. *)
Theorem deactivate_then_authenticate
    (w : World) (userIdx : Z) (username : string) (row : UserRow)
    (rest : list UserRow) :
  filter (has_username username) (users (db w)) = row :: rest ->
  u_idx row = userIdx ->
  let w1 := snd (deactivate userIdx w) in
  let w2 := snd (activate userIdx w1) in
  (forall salt password,
      authenticate salt username password w1
      = (Err NotActivatedError, issued SqlSelectUserForAuthentication w1)) /\
  (exists row2 rest2,
      filter (has_username username) (users (db w2)) = row2 :: rest2 /\
      u_idx row2 = userIdx /\ u_activated row2 = true).
Proof.
  intros Hrows Hidx w1 w2. subst userIdx.
  assert (users (db w1)
          = map (updated (u_idx row) (set_activated false)) (users (db w)))
    as Hw1 by reflexivity.
  assert (users (db w2)
          = map (updated (u_idx row) (set_activated true)) (users (db w1)))
    as Hw2 by reflexivity.
  split.
  - intros salt password. rewrite authenticate_lookup, Hw1.
    rewrite filter_map_same_key
      by (intros x; apply has_username_updated; reflexivity).
    rewrite Hrows. cbn [map]. unfold updated at 1. rewrite has_idx_self.
    reflexivity.
  - rewrite Hw2, Hw1.
    rewrite !filter_map_same_key
      by (intros x; apply has_username_updated; reflexivity).
    rewrite Hrows. cbn [map]. eexists. eexists. split; [reflexivity|].
    unfold updated. rewrite has_idx_self. unfold has_idx.
    cbn [set_activated u_idx]. rewrite Z.eqb_refl. split; reflexivity.
Qed.

End AuthenticationInSequence.

(* ================================================================== *)
(** ** Further properties: the directory and its cache *)







Section DirectoryCache.

Variable config : Config.
Context {crypto : Crypto}.
Variable schema : Schema.
Variable ensureHasAccessExclusiveLock : Transaction -> string -> result unit.
Variable posixAccountObjectClass : list string.

Lemma userToPosixAccount_posixAccountOf (user : User) (w : World) :
  userToPosixAccount config posixAccountObjectClass user w =
  match
    posixAccountOf config posixAccountObjectClass (usersDN (this w)) user
  with
  | Some entry => (Ok entry, w)
  | None => (Err (JsError "Cannot convert to posixAccount"), w)
  end.
Proof.
  rewrite userToPosixAccount_run. unfold posixAccountOf.
  destruct (username user), (shell user); reflexivity.
Qed.

Lemma forEach_posixAccountOf (accounts : list User) (w : World) :
  forall posixAccounts,
    forEach accounts
      (fun user posixAccounts =>
         try_catch
           (entry <- userToPosixAccount config posixAccountObjectClass user ;;
            ret (posixAccounts ++ [entry]))
           (fun e => ret posixAccounts))
      posixAccounts w
    = (Ok (posixAccounts
           ++ flat_map
                (fun user =>
                   match
                     posixAccountOf config posixAccountObjectClass
                       (usersDN (this w)) user
                   with
                   | Some entry => [entry]
                   | None => []
                   end)
                accounts),
       w).
Proof.
  induction accounts as [|user rest IH]; intros posixAccounts.
  - cbn [forEach flat_map]. rewrite app_nil_r. reflexivity.
  - cbn [forEach flat_map]. rewrite bind_run, usersToPosixAccounts_body.
    unfold posixAccountOf at 1.
    destruct (username user), (shell user); rewrite IH;
      rewrite <- ?app_assoc; reflexivity.
Qed.

(** [getAllAsPosixAccounts] on an empty cache reads the table, returns its
    directory and keeps it; on a filled cache it returns what the cache
    holds and does nothing else. *)
Lemma getAllAsPosixAccounts_run (w : World) :
  getAllAsPosixAccounts config posixAccountObjectClass w =
  match posixAccountsCache (this w) with
  | None =>
      let entries :=
        posixAccountsOf config posixAccountObjectClass (usersDN (this w))
          (users (db w)) in
      (Ok entries, set_cache (issued SqlSelectAllUsers w) (Some entries))
  | Some cached => (Ok cached, w)
  end.
Proof.
  unfold getAllAsPosixAccounts. rewrite bind_run. unfold get.
  destruct (posixAccountsCache (this w)) as [cached|]; [reflexivity|].
  rewrite bind_run. unfold getAll. rewrite bind_run, query_run.
  cbn [tr tr_db]. fold (db w). fold (issued SqlSelectAllUsers w).
  unfold ret at 1. rewrite bind_run. unfold usersToPosixAccounts.
  rewrite forEach_posixAccountOf. cbn [app]. rewrite bind_run.
  unfold assign_posixAccountsCache at 1. unfold ret. cbv zeta.
  unfold posixAccountsOf. rewrite flat_map_concat_map, map_map, map_map.
  rewrite <- flat_map_concat_map. reflexivity.
Qed.











(** X7.  A second read repeats the first and asks the database nothing:
    after [getAllAsPosixAccounts] has returned, calling it again returns
    the same entries and leaves the world, the list of issued statements
    included, as it is. *)
Theorem getAllAsPosixAccounts_reads_once (w : World) :
  exists entries w1,
    getAllAsPosixAccounts config posixAccountObjectClass w = (Ok entries, w1)
    /\
    getAllAsPosixAccounts config posixAccountObjectClass w1 = (Ok entries, w1).
Proof.
  rewrite getAllAsPosixAccounts_run.
  destruct (posixAccountsCache (this w)) as [cached|] eqn:Ecache.
  - exists cached, w. split; [reflexivity|].
    rewrite getAllAsPosixAccounts_run, Ecache. reflexivity.
  - cbv zeta. eexists. eexists. split; [reflexivity|].
    rewrite getAllAsPosixAccounts_run. reflexivity.
Qed.


End DirectoryCache.

(* ================================================================== *)
(** ** Further properties: the life of a password-change token *)

Local Open Scope store_scope.

Lemma bindS_run {A B} (m : MS A) (k : A -> MS B) (s : Store) :
  bindS m k s =
  match m s with
  | (Ok a, s') => k a s'
  | (Err e, s') => (Err e, s')
  end.
Proof. reflexivity. Qed.

Lemma queryS_run {A} (q : MoreSql)
    (run : Transaction -> MoreTables -> result (A * Database * MoreTables))
    (s : Store) :
  queryS q run s =
  match run (tr (world s)) (more s) with
  | Ok (a, d, m) =>
      (Ok a,
       mkStore
         (mkWorld (this (world s))
            (mkTransaction d (tr_locks (tr (world s)))
               (tr_now (tr (world s))) (tr_issued (tr (world s)))))
         m (more_issued s ++ [q]))
  | Err e => (Err e, issuedS q s)
  end.
Proof. reflexivity. Qed.

(** A statement that reads: the rows come back and the store has only
    recorded the statement. *)
Lemma queryS_read {A} (q : MoreSql) (rows : Transaction -> MoreTables -> A)
    (s : Store) :
  queryS q (fun t m => Ok (rows t m, tr_db t, m)) s
  = (Ok (rows (tr (world s)) (more s)), issuedS q s).
Proof.
  rewrite queryS_run. unfold issuedS.
  destruct s as [[u [d locks now log]] m log']. reflexivity.
Qed.

Lemma head_of_filter {A B} (p : A -> bool) (f : A -> B) (l : list A) (b : B) :
  (exists x, In x l /\ p x = true) ->
  (forall x, In x l -> p x = true -> f x = b) ->
  exists rest, map f (filter p l) = b :: rest.
Proof.
  intros (x & Hx & Hp) Hall.
  destruct (filter p l) as [|y rest] eqn:E.
  - assert (In x (filter p l)) as Hin by (apply filter_In; auto).
    rewrite E in Hin. destruct Hin.
  - assert (In y (filter p l)) as Hin by (rewrite E; left; reflexivity).
    apply filter_In in Hin. destruct Hin as [Hy Hpy].
    exists (map f rest). cbn [map]. rewrite (Hall y Hy Hpy). reflexivity.
Qed.

Section TokenLife.

Variable schema : Schema.

(** The rows of [password_change_tokens] after an issuance. *)
Lemma generatePasswordChangeToken_rows (w : World) randomBytes moment_
    userIdx :
  let token := toString_hex randomBytes in
  let w1 :=
    snd (generatePasswordChangeToken schema randomBytes moment_ userIdx w) in
  fst (generatePasswordChangeToken schema randomBytes moment_ userIdx w)
  = Ok token /\
  this w1 = this w /\ tr_now (tr w1) = tr_now (tr w) /\
  (exists r, In r (password_change_tokens (db w1)) /\
             t_user_idx r = userIdx /\ t_token r = token) /\
  (forall r, In r (password_change_tokens (db w1)) ->
             t_user_idx r = userIdx ->
             t_token r = token /\ t_expires r = moment_ + one_day /\
             (~ (exists r0, In r0 (password_change_tokens (db w)) /\
                            t_user_idx r0 = userIdx) ->
              t_resend_count r = default_resend_count schema)) /\
  (forall r, In r (password_change_tokens (db w1)) ->
             t_user_idx r <> userIdx ->
             exists r0, In r0 (password_change_tokens (db w)) /\
                        t_user_idx r0 = t_user_idx r /\
                        t_token r0 = t_token r).
Proof.
  intros token w1. subst w1.
  unfold generatePasswordChangeToken, resetResendCountIfExpired.
  rewrite bind_run, query_run. cbn [tr tr_db]. fold (db w).
  rewrite bind_run, query_run. unfold upsert_token.
  cbn [tr tr_db password_change_tokens set_password_change_tokens
       set_password_change_tokens_idx_seq password_change_tokens_idx_seq
       tr_now].
  set (reset :=
         fun r0 : TokenRow =>
           if has_user_idx userIdx r0 && (t_expires r0 <=? tr_now (tr w))
           then mkTokenRow (t_idx r0) (t_user_idx r0) (t_token r0)
                  (t_expires r0) 0
           else r0).
  assert (forall x, t_user_idx (reset x) = t_user_idx x /\
                    t_token (reset x) = t_token x) as Hreset.
  { intros x. unfold reset.
    destruct (has_user_idx userIdx x && (t_expires x <=? tr_now (tr w)));
      split; reflexivity. }
  set (T := password_change_tokens (db w)).
  destruct (existsb (has_user_idx userIdx) (map reset T)) eqn:Eex.
  - cbn [fst snd bind ret db tr tr_db password_change_tokens this tr_now].
    split; [reflexivity|]. split; [reflexivity|]. split; [reflexivity|].
    split; [|split].
    + apply existsb_exists in Eex. destruct Eex as (x & Hx & Hkey).
      eexists. split; [apply in_map; exact Hx|]. rewrite Hkey.
      cbn [t_user_idx t_token]. unfold has_user_idx in Hkey.
      apply Z.eqb_eq in Hkey. split; [exact Hkey | reflexivity].
    + intros r Hr Hidx. apply in_map_iff in Hr.
      destruct Hr as (x & <- & Hx). apply in_map_iff in Hx.
      destruct Hx as (x0 & <- & Hx0).
      destruct (has_user_idx userIdx (reset x0)) eqn:Hkey.
      * cbn [t_token t_expires]. split; [reflexivity|].
        split; [reflexivity|]. intros Hnone. exfalso. apply Hnone.
        exists x0. split; [exact Hx0|]. unfold has_user_idx in Hkey.
        apply Z.eqb_eq in Hkey. rewrite <- Hkey. symmetry. apply Hreset.
      * unfold has_user_idx in Hkey. apply Z.eqb_neq in Hkey. contradiction.
    + intros r Hr Hidx. apply in_map_iff in Hr.
      destruct Hr as (x & <- & Hx). apply in_map_iff in Hx.
      destruct Hx as (x0 & <- & Hx0). exists x0. split; [exact Hx0|].
      destruct (has_user_idx userIdx (reset x0)) eqn:Hkey.
      * unfold has_user_idx in Hkey. apply Z.eqb_eq in Hkey.
        cbn [t_user_idx] in Hidx. contradiction.
      * destruct (Hreset x0) as [H1 H2]. split; congruence.
  - cbn [fst snd bind ret db tr tr_db password_change_tokens this tr_now].
    split; [reflexivity|]. split; [reflexivity|]. split; [reflexivity|].
    assert (forall x, In x T -> t_user_idx x <> userIdx) as Hnone.
    { intros x Hx Hidx.
      assert (existsb (has_user_idx userIdx) (map reset T) = true) as Hyes.
      { apply existsb_exists. exists (reset x). split; [apply in_map, Hx|].
        unfold has_user_idx. apply Z.eqb_eq.
        destruct (Hreset x) as [H1 _]. congruence. }
      congruence. }
    split; [|split].
    + eexists. split; [apply in_or_app; right; left; reflexivity|].
      split; reflexivity.
    + intros r Hr Hidx. apply in_app_or in Hr. destruct Hr as [Hr|[<-|[]]].
      * apply in_map_iff in Hr. destruct Hr as (x & <- & Hx). exfalso.
        apply (Hnone x Hx). destruct (Hreset x) as [H1 _]. congruence.
      * split; [reflexivity|]. split; reflexivity.
    + intros r Hr Hidx. apply in_app_or in Hr. destruct Hr as [Hr|[<-|[]]].
      * apply in_map_iff in Hr. destruct Hr as (x & <- & Hx). exists x.
        split; [exact Hx|]. destruct (Hreset x) as [H1 H2].
        split; congruence.
      * cbn [t_user_idx] in Hidx. contradiction.
Qed.

(** The rows that carry the token just issued belong to the user, when no
    other user's row carried the same string. *)
Lemma issued_token_rows (w : World) randomBytes moment_ userIdx :
  let token := toString_hex randomBytes in
  let w1 :=
    snd (generatePasswordChangeToken schema randomBytes moment_ userIdx w) in
  (forall r, In r (password_change_tokens (db w)) ->
             t_user_idx r <> userIdx -> t_token r <> token) ->
  (exists r, In r (password_change_tokens (db w1)) /\
             has_token token r = true) /\
  (forall r, In r (password_change_tokens (db w1)) ->
             has_token token r = true ->
             t_user_idx r = userIdx /\ t_expires r = moment_ + one_day /\
             (~ (exists r0, In r0 (password_change_tokens (db w)) /\
                            t_user_idx r0 = userIdx) ->
              t_resend_count r = default_resend_count schema)).
Proof.
  intros token w1 Hunique.
  destruct (generatePasswordChangeToken_rows w randomBytes moment_ userIdx)
    as (_ & _ & _ & (r & Hr & Hidx & Htoken) & Hmine & Hothers).
  fold w1 in Hr, Hmine, Hothers. fold token in Htoken, Hmine. split.
  - exists r. split; [exact Hr|]. unfold has_token. rewrite Htoken.
    apply String.eqb_refl.
  - intros x Hx Hhas. unfold has_token in Hhas. apply String.eqb_eq in Hhas.
    destruct (Z.eq_dec (t_user_idx x) userIdx) as [Hmy|Hother].
    + destruct (Hmine x Hx Hmy) as (_ & Hexp & Hcount). auto.
    + exfalso. destruct (Hothers x Hx Hother) as (r0 & Hr0 & Hu & Ht).
      apply (Hunique r0 Hr0); congruence.
Qed.


(** X10.  The first token of a user starts at the default resend count:
    when the user had no row and no other user's row carries the string
    returned, [getResendCount] on the token just issued returns the default
    of the column. *)
Theorem first_token_has_default_resend_count
    (w : World) (randomBytes : Buffer) (moment_ userIdx : Z) :
  let token := toString_hex randomBytes in
  (forall r, In r (password_change_tokens (db w)) ->
             t_user_idx r <> userIdx /\ t_token r <> token) ->
  let w1 :=
    snd (generatePasswordChangeToken schema randomBytes moment_ userIdx w) in
  getResendCount token w1
  = (Ok (default_resend_count schema), issued SqlSelectResendCount w1).
Proof.
  intros token Hfresh w1.
  assert (forall r, In r (password_change_tokens (db w)) ->
                    t_user_idx r <> userIdx -> t_token r <> token) as Hunique
    by (intros r Hr _; apply Hfresh, Hr).
  destruct (@issued_token_rows w randomBytes moment_ userIdx Hunique)
    as [Hsome Hall].
  assert (~ (exists r0, In r0 (password_change_tokens (db w)) /\
                        t_user_idx r0 = userIdx)) as Hnone.
  { intros (r0 & Hr0 & Hidx). destruct (Hfresh r0 Hr0). contradiction. }
  unfold getResendCount. rewrite bind_run, query_run. cbn [tr tr_db].
  fold (db w1). fold (issued SqlSelectResendCount w1).
  destruct (@head_of_filter _ _ (has_token token) t_resend_count
              (password_change_tokens (db w1)) (default_resend_count schema)
              Hsome (fun x Hx Hp => proj2 (proj2 (Hall x Hx Hp)) Hnone))
    as (rest & Hhead).
  unfold has_token in Hhead.
  destruct (filter (fun r => String.eqb (t_token r) token)
              (password_change_tokens (db w1))) as [|row more_rows];
    [discriminate|].
  cbn [map] in Hhead. inversion Hhead. reflexivity.
Qed.

(** X11.  A token is used up by [removeToken].  Whatever [removeToken]
    returns, afterwards no row carries the token: looking up its user,
    checking its expiry and removing it again all throw
    [NoSuchEntryError]; the rows that carry other tokens are kept, in
    order. *)
Theorem removeToken_uses_the_token_up (s : Store) (token : string) :
  let s1 := snd (removeToken token s) in
  password_change_tokens (dbS s1)
  = filter (fun r => negb (has_token token r)) (password_change_tokens (dbS s))
  /\
  getUserIdxByPasswordToken token s1
  = (Err NoSuchEntryError, issuedS SqlSelectTokenUser s1) /\
  (forall clock,
      ensureTokenNotExpired clock token s1
      = (Err NoSuchEntryError, issuedS SqlSelectExpires s1)) /\
  fst (removeToken token s1) = Err NoSuchEntryError /\
  (fst (removeToken token s) = Err NoSuchEntryError <->
   forall r, In r (password_change_tokens (dbS s)) -> t_token r <> token).
Proof.
  intros s1.
  assert (password_change_tokens (dbS s1)
          = filter (fun r => negb (has_token token r))
              (password_change_tokens (dbS s))) as Hrows.
  { subst s1. unfold removeToken. rewrite bindS_run, queryS_run.
    destruct (map t_idx _); reflexivity. }
  assert (filter (has_token token) (password_change_tokens (dbS s1)) = [])
    as Hnone.
  { rewrite Hrows. apply filter_none. intros x Hx. apply filter_In in Hx.
    destruct Hx as [_ Hx]. destruct (has_token token x); [discriminate|].
    reflexivity. }
  split; [exact Hrows|]. unfold dbS, db in Hnone. split; [|split; [|split]].
  - unfold getUserIdxByPasswordToken.
    rewrite bindS_run,
      (queryS_read SqlSelectTokenUser
         (fun t _ =>
            map t_user_idx
              (filter (has_token token) (password_change_tokens (tr_db t))))).
    rewrite Hnone. reflexivity.
  - intros clock. unfold ensureTokenNotExpired.
    rewrite bindS_run,
      (queryS_read SqlSelectExpires
         (fun t _ =>
            map t_expires
              (filter (has_token token) (password_change_tokens (tr_db t))))).
    rewrite Hnone. reflexivity.
  - unfold removeToken. rewrite bindS_run, queryS_run. rewrite Hnone.
    reflexivity.
  - unfold removeToken. rewrite bindS_run, queryS_run.
    fold (db (world s)). fold (dbS s).
    destruct (filter (has_token token) (password_change_tokens (dbS s)))
      as [|row rest] eqn:E; cbn [map fst]; split.
    + intros _ r Hr Htoken.
      assert (In r (filter (has_token token)
                      (password_change_tokens (dbS s)))) as Hin.
      { apply filter_In. split; [exact Hr|]. unfold has_token.
        rewrite Htoken. apply String.eqb_refl. }
      rewrite E in Hin. destruct Hin.
    + reflexivity.
    + discriminate.
    + intros Hall. exfalso.
      assert (In row (filter (has_token token)
                        (password_change_tokens (dbS s)))) as Hin
        by (rewrite E; left; reflexivity).
      apply filter_In in Hin. destruct Hin as [Hin Hhas].
      unfold has_token in Hhas. apply String.eqb_eq in Hhas.
      exact (Hall row Hin Hhas).
Qed.

End TokenLife.

Local Close Scope store_scope.

(* ================================================================== *)
(** ** Further properties: encodings *)

Lemma hex_value_hex_digit (n : N) : (n < 16)%N -> hex_value (hex_digit n) = n.
Proof.
  intros Hn. unfold hex_value, hex_digit.
  destruct (n <? 10)%N eqn:E.
  - apply N.ltb_lt in E. rewrite N_ascii_embedding by lia.
    assert ((48 + n <? 58)%N = true) as -> by (apply N.ltb_lt; lia). lia.
  - apply N.ltb_ge in E. rewrite N_ascii_embedding by lia.
    assert ((87 + n <? 58)%N = false) as -> by (apply N.ltb_ge; lia). lia.
Qed.

(** X12.  The token keeps every random bit.  [toString('hex')] writes two
    characters per byte, and the bytes can be read back from the string: on
    buffers of bytes, decoding the hex string gives the buffer, so two
    different buffers never give the same token, and 32 random bytes give a
    token of 64 characters. *)
Theorem toString_hex_round_trip (b : Buffer) :
  Forall (fun x => (x < 256)%N) b ->
  from_hex (toString_hex b) = b /\
  String.length (toString_hex b) = (2 * List.length b)%nat /\
  (forall b', Forall (fun x => (x < 256)%N) b' ->
              toString_hex b' = toString_hex b -> b' = b).
Proof.
  assert (forall c : Buffer, Forall (fun x => (x < 256)%N) c ->
                             from_hex (toString_hex c) = c) as Hround.
  { induction 1 as [|x c Hx Hc IH]; [reflexivity|].
    cbn [toString_hex from_hex]. rewrite IH.
    rewrite !hex_value_hex_digit.
    - f_equal. change 0xF%N with (N.ones 4). rewrite N.land_ones.
      rewrite N.shiftr_div_pow2. change (2 ^ 4)%N with 16%N.
      pose proof (N.div_mod x 16). lia.
    - change 0xF%N with (N.ones 4). rewrite N.land_ones.
      change (2 ^ 4)%N with 16%N. apply N.mod_lt. lia.
    - rewrite N.shiftr_div_pow2. change (2 ^ 4)%N with 16%N.
      apply N.Div0.div_lt_upper_bound. lia. }
  intros Hb. split; [apply Hround, Hb|]. split.
  - clear. induction b as [|x b IH]; [reflexivity|].
    cbn [toString_hex String.length List.length]. rewrite IH. lia.
  - intros b' Hb' Hsame. rewrite <- (Hround b' Hb'), Hsame.
    apply Hround, Hb.
Qed.

Lemma spread_low (c : N) (s : JsString) :
  is_high_surrogate c = false -> spread (c :: s) = [c] :: spread s.
Proof.
  intros Hc. destruct s as [|d s]; [reflexivity|].
  rewrite spread_pair, Hc. reflexivity.
Qed.

(** X13.  For a password of ASCII characters the bytes hashed under a
    legacy digest are its UTF-16LE encoding: every code unit below 128 is
    written as itself followed by one null byte. *)
Theorem nullAppendedPassword_ascii_is_utf16le (password : JsString) :
  Forall (fun c => (c < 128)%N) password ->
  nullAppendedPassword password = flat_map (fun c => [c; 0%N]) password.
Proof.
  intros Hascii. rewrite nullAppendedPassword_null_padded. unfold null_padded.
  induction Hascii as [|c s Hc Hs IH]; [reflexivity|].
  assert (is_high_surrogate c = false) as Hhigh.
  { unfold is_high_surrogate. apply andb_false_iff. left.
    apply N.leb_gt. lia. }
  assert (is_low_surrogate c = false) as Hlow.
  { unfold is_low_surrogate. apply andb_false_iff. left.
    apply N.leb_gt. lia. }
  rewrite (@spread_low c s Hhigh). cbn [flat_map]. rewrite IH.
  rewrite (Buffer_from_unit c []), Hhigh, Hlow.
  unfold utf8_of_code_point.
  assert ((c <? 128)%N = true) as -> by (apply N.ltb_lt; exact Hc).
  reflexivity.
Qed.

(* ================================================================== *)
(** ** Further properties: hosts and host groups *)

Local Open Scope store_scope.

Lemma set_hosts_same (d : Database) : set_hosts d (hosts d) = d.
Proof. destruct d. reflexivity. Qed.

Lemma set_host_groups_same (d : Database) :
  set_host_groups d (host_groups d) = d.
Proof. destruct d. reflexivity. Qed.

Lemma store_same (s : Store) :
  mkStore
    (mkWorld (this (world s))
       (mkTransaction (tr_db (tr (world s))) (tr_locks (tr (world s)))
          (tr_now (tr (world s))) (tr_issued (tr (world s)))))
    (more s) (more_issued s)
  = s.
Proof. destruct s as [[u [d locks now log]] m log']. reflexivity. Qed.

Lemma store_same_issued (s : Store) (q : MoreSql) :
  mkStore
    (mkWorld (this (world s))
       (mkTransaction (tr_db (tr (world s))) (tr_locks (tr (world s)))
          (tr_now (tr (world s))) (tr_issued (tr (world s)))))
    (more s) (more_issued s ++ [q])
  = issuedS q s.
Proof. destruct s as [[u [d locks now log]] m log']. reflexivity. Qed.

Lemma update_where_none {R} (matches : R -> bool) (set : R -> R)
    (accepts : R -> bool) (table : list R) :
  (forall r, In r table -> matches r = false) ->
  update_where matches set accepts table = Some ([], table).
Proof.
  intros Hnone. unfold update_where. rewrite (filter_none _ _ Hnone).
  cbn [map forallb]. f_equal. f_equal.
  rewrite <- (map_id table) at 2. apply map_ext_in. intros r Hr.
  rewrite (Hnone r Hr). reflexivity.
Qed.

Lemma update_where_some {R} (matches : R -> bool) (set : R -> R)
    (accepts : R -> bool) (table touched table' : list R) :
  update_where matches set accepts table = Some (touched, table') ->
  touched = map set (filter matches table) /\
  table' = map (fun r => if matches r then set r else r) table.
Proof.
  unfold update_where. destruct (forallb _ _); [|discriminate].
  intros E. inversion E. split; reflexivity.
Qed.

Section HostRegistry.

Variable more_schema : MoreSchema.
Variable sql_host : string -> string.
Variable checkUserHavePermission : Z -> Z -> M bool.

(** X14.  The three statements of the host registry that change a row
    throw [NoSuchEntryError] when no row has the [idx], and leave every
    table as it was; the constraints of the schema play no part. *)
Theorem host_updates_need_the_row
    (s : Store) (hostIdx hostGroupIdx_ permissionIdx : Z) :
  ((forall h, In h (hosts (dbS s)) -> hr_idx h <> hostIdx) ->
   deleteHost hostIdx s = (Err NoSuchEntryError, issuedS SqlDeleteHost s) /\
   addHostToGroup more_schema hostIdx hostGroupIdx_ s
   = (Err NoSuchEntryError, issuedS SqlUpdateHostGroup s)) /\
  ((forall g, In g (host_groups (dbS s)) -> gr_idx g <> hostGroupIdx_) ->
   setHostGroupPermission more_schema hostGroupIdx_ permissionIdx s
   = (Err NoSuchEntryError, issuedS SqlUpdateRequiredPermission s)).
Proof.
  split.
  - intros Hnone.
    assert (forall h, In h (hosts (dbS s)) -> host_has_idx hostIdx h = false)
      as Hoff.
    { intros h Hh. unfold host_has_idx. apply Z.eqb_neq. apply Hnone, Hh. }
    split.
    + unfold deleteHost. rewrite bindS_run, queryS_run.
      fold (db (world s)). fold (dbS s).
      rewrite (@filter_none _ (host_has_idx hostIdx) _ Hoff).
      assert (filter (fun h => negb (host_has_idx hostIdx h)) (hosts (dbS s))
              = hosts (dbS s)) as ->.
      { clear Hnone. induction (hosts (dbS s)) as [|h l IH]; [reflexivity|].
        simpl. rewrite (Hoff h (or_introl eq_refl)). simpl. f_equal.
        apply IH. intros x Hx. apply Hoff. right. exact Hx. }
      rewrite set_hosts_same. cbn [map]. unfold dbS, db.
      rewrite store_same_issued. reflexivity.
    + unfold addHostToGroup. rewrite bindS_run, queryS_run.
      fold (db (world s)). fold (dbS s).
      rewrite (update_where_none _ _ _ _ Hoff). rewrite set_hosts_same.
      cbn [map]. unfold dbS, db. rewrite store_same_issued. reflexivity.
  - intros Hnone.
    assert (forall g, In g (host_groups (dbS s)) ->
                      group_has_idx hostGroupIdx_ g = false) as Hoff.
    { intros g Hg. unfold group_has_idx. apply Z.eqb_neq. apply Hnone, Hg. }
    unfold setHostGroupPermission. rewrite bindS_run, queryS_run.
    fold (db (world s)). fold (dbS s).
    rewrite (update_where_none _ _ _ _ Hoff). rewrite set_host_groups_same.
    cbn [map]. unfold dbS, db. rewrite store_same_issued. reflexivity.
Qed.


(** X16.  Putting a host in a group and giving the group a required
    permission closes the host to users without the permission.  After
    [addHostToGroup] and then [setHostGroupPermission] have returned, the
    host that [getHostByInet] reads under that [idx] is in the group, and
    [authorizeUserByHost] on it returns when the permission check says
    [true] for that permission and throws [AuthorizationError] when it says
    [false]. *)
Theorem grouped_host_requires_the_permission
    (s s1 s2 s3 : Store) (hostIdx groupIdx permissionIdx : Z)
    (inet : string) (host : Host) :
  addHostToGroup more_schema hostIdx groupIdx s = (Ok tt, s1) ->
  setHostGroupPermission more_schema groupIdx permissionIdx s1 = (Ok tt, s2)
  ->
  getHostByInet sql_host inet s2 = (Ok host, s3) ->
  h_idx host = hostIdx ->
  hostGroupIdx host = Some groupIdx /\
  world s3 = world s2 /\
  forall userIdx havePermission w',
    checkUserHavePermission userIdx permissionIdx
      (issued SqlSelectHostGroup (world s3)) = (Ok havePermission, w') ->
    authorizeUserByHost checkUserHavePermission userIdx host (world s3)
    = (if havePermission then Ok tt else Err AuthorizationError, w').
Proof.
  intros Hgroup Hperm Hget Hidx.
  (* the hosts after the first statement *)
  assert (hosts (dbS s1)
          = map (fun h =>
                   if host_has_idx hostIdx h
                   then mkHostRow (hr_idx h) (hr_name h) (hr_host h)
                          (Some groupIdx)
                   else h)
              (hosts (dbS s))) as Hhosts1.
  { revert Hgroup. unfold addHostToGroup. rewrite bindS_run, queryS_run.
    fold (db (world s)). fold (dbS s).
    destruct (update_where _ _ _ (hosts (dbS s))) as [[touched table]|] eqn:E;
      [|discriminate].
    apply update_where_some in E. destruct E as [_ ->].
    destruct (map hr_idx touched); [discriminate|].
    intros E. inversion E. reflexivity. }
  (* the groups and hosts after the second *)
  assert (hosts (dbS s2) = hosts (dbS s1) /\
          exists row,
            In row (host_groups (dbS s1)) /\
            group_has_idx groupIdx row = true /\
            host_groups (dbS s2)
            = map (fun g =>
                     if group_has_idx groupIdx g
                     then mkHostGroupRow (gr_idx g) (gr_name g)
                            (Some permissionIdx)
                     else g)
                (host_groups (dbS s1))) as [Hhosts2 Hgroups2].
  { revert Hperm. unfold setHostGroupPermission.
    rewrite bindS_run, queryS_run. fold (db (world s1)). fold (dbS s1).
    destruct (update_where _ _ _ (host_groups (dbS s1)))
      as [[touched table]|] eqn:E; [|discriminate].
    apply update_where_some in E. destruct E as [-> ->].
    destruct (filter (group_has_idx groupIdx) (host_groups (dbS s1)))
      as [|row rest] eqn:Ef; [discriminate|].
    intros E. inversion E. split; [reflexivity|]. exists row.
    assert (In row (filter (group_has_idx groupIdx) (host_groups (dbS s1))))
      as Hin by (rewrite Ef; left; reflexivity).
    apply filter_In in Hin. destruct Hin. repeat split; assumption. }
  (* the host read back *)
  assert (world s3 = world s2 /\
          exists row, In row (hosts (dbS s2)) /\ host = rowToHost row)
    as [Hworld (row & Hrow & ->)].
  { revert Hget. unfold getHostByInet.
    rewrite bindS_run,
      (queryS_read SqlSelectHostByInet
         (fun t _ =>
            filter (fun h => String.eqb (sql_host (hr_host h)) inet)
              (hosts (tr_db t)))).
    fold (db (world s2)). fold (dbS s2).
    destruct (filter _ (hosts (dbS s2))) as [|row rest] eqn:Ef;
      [discriminate|].
    unfold retS. intros E. inversion E. split; [reflexivity|]. exists row.
    assert (In row (filter (fun h => String.eqb (sql_host (hr_host h)) inet)
                      (hosts (dbS s2)))) as Hin
      by (rewrite Ef; left; reflexivity).
    apply filter_In in Hin. destruct Hin. split; [assumption | reflexivity]. }
  cbn [rowToHost h_idx] in Hidx.
  assert (hr_host_group row = Some groupIdx) as Hingroup.
  { rewrite Hhosts2, Hhosts1 in Hrow. apply in_map_iff in Hrow.
    destruct Hrow as (h & <- & _).
    unfold host_has_idx in *. destruct (hr_idx h =? hostIdx) eqn:E.
    - reflexivity.
    - apply Z.eqb_neq in E. contradiction. }
  split; [exact Hingroup|]. split; [exact Hworld|].
  intros userIdx havePermission w' Hcheck.
  unfold authorizeUserByHost. cbn [rowToHost hostGroupIdx].
  rewrite Hingroup, bind_run. unfold getHostGroupByIdx.
  rewrite bind_run, query_run. cbn [tr tr_db]. fold (db (world s3)).
  fold (issued SqlSelectHostGroup (world s3)).
  destruct Hgroups2 as (grow & Hgrow & Hhas & Hgroups2).
  rewrite Hworld. fold (dbS s2). rewrite Hgroups2.
  assert (forall g, (gr_idx
                       (if group_has_idx groupIdx g
                        then mkHostGroupRow (gr_idx g) (gr_name g)
                               (Some permissionIdx)
                        else g) =? groupIdx)
                    = (gr_idx g =? groupIdx)) as Hkey
    by (intros g; destruct (group_has_idx groupIdx g); reflexivity).
  rewrite (filter_map_same_key (fun g => gr_idx g =? groupIdx) _ _ Hkey).
  destruct (filter (fun g => gr_idx g =? groupIdx) (host_groups (dbS s1)))
    as [|first rest] eqn:Ef.
  { assert (In grow (filter (fun g => gr_idx g =? groupIdx)
                       (host_groups (dbS s1)))) as Hin
      by (apply filter_In; split; assumption).
    rewrite Ef in Hin. destruct Hin. }
  assert (group_has_idx groupIdx first = true) as Hfirst.
  { assert (In first (filter (fun g => gr_idx g =? groupIdx)
                        (host_groups (dbS s1)))) as Hin
      by (rewrite Ef; left; reflexivity).
    apply filter_In in Hin. tauto. }
  cbn [map]. rewrite Hfirst. unfold ret at 1.
  cbn [rowToHostGroup requiredPermissionIdx gr_required_permission].
  rewrite bind_run. rewrite <- Hworld, Hcheck.
  destruct havePermission; reflexivity.
Qed.

(** X17.  A host whose group is gone is closed to everyone.  When the host
    names a group that [host_groups] does not hold, [authorizeUserByHost]
    throws [NoSuchEntryError] for every user: the one statement issued is
    the lookup of the group, and the permission check is not run. *)
Theorem authorizeUserByHost_missing_group
    (w : World) (userIdx groupIdx : Z) (host : Host) :
  hostGroupIdx host = Some groupIdx ->
  (forall g, In g (host_groups (db w)) -> gr_idx g <> groupIdx) ->
  authorizeUserByHost checkUserHavePermission userIdx host w
  = (Err NoSuchEntryError, issued SqlSelectHostGroup w).
Proof.
  intros Hgroup Hnone. unfold authorizeUserByHost. rewrite Hgroup, bind_run.
  unfold getHostGroupByIdx. rewrite bind_run, query_run. cbn [tr tr_db].
  fold (db w). fold (issued SqlSelectHostGroup w).
  rewrite (@filter_none _ (fun g => gr_idx g =? groupIdx) (host_groups (db w))).
  - reflexivity.
  - intros g Hg. apply Z.eqb_neq. apply Hnone, Hg.
Qed.

End HostRegistry.

Local Close Scope store_scope.

(* ================================================================== *)
(** ** Further properties: memberships and reachable groups *)

Local Open Scope store_scope.

Lemma in_Set_add (x y : Z) (set : list Z) :
  In x (Set_add y set) <-> x = y \/ In x set.
Proof.
  unfold Set_add. destruct (existsb (Z.eqb y) set) eqn:E.
  - split; [auto|]. intros [->|H]; [|exact H].
    apply existsb_exists in E. destruct E as (z & Hz & Heq).
    apply Z.eqb_eq in Heq. subst z. exact Hz.
  - rewrite in_app_iff. simpl. intuition.
Qed.

Lemma NoDup_Set_add (y : Z) (set : list Z) :
  NoDup set -> NoDup (Set_add y set).
Proof.
  intros Hset. unfold Set_add. destruct (existsb (Z.eqb y) set) eqn:E;
    [exact Hset|].
  apply NoDup_snoc; [exact Hset|]. intros Hin.
  assert (existsb (Z.eqb y) set = true) as Hyes.
  { apply existsb_exists. exists y. split; [exact Hin | apply Z.eqb_refl]. }
  congruence.
Qed.

Lemma add_all (l set : list Z) :
  let set' := fold_left (fun set gi => Set_add gi set) l set in
  (NoDup set -> NoDup set') /\
  (forall x, In x set' <-> In x l \/ In x set).
Proof.
  revert set. induction l as [|y l IH]; intros set; cbn [fold_left].
  - split; [auto|]. intros x. simpl. tauto.
  - destruct (IH (Set_add y set)) as [Hnd Hin]. split.
    + intros Hset. apply Hnd, NoDup_Set_add, Hset.
    + intros x. rewrite Hin, in_Set_add. simpl. intuition.
Qed.

Section Memberships.

Variable more_schema : MoreSchema.
Variable getGroupReachableArray : Z -> MS (list Z).

Lemma getAllUserMemberships_run (s : Store) (userIdx : Z) :
  getAllUserMemberships userIdx s =
  (match rows_of_user userIdx (more s) with
   | [] => Err NoSuchEntryError
   | rows => Ok (map rowToUserMembership rows)
   end,
   issuedS SqlSelectUserMemberships s).
Proof.
  unfold getAllUserMemberships.
  rewrite bindS_run,
    (queryS_read SqlSelectUserMemberships
       (fun _ m => filter (fun r => um_user_idx r =? userIdx)
                     (user_memberships m))).
  fold (rows_of_user userIdx (more s)).
  destruct (rows_of_user userIdx (more s)); reflexivity.
Qed.

(** X18.  A membership that [addUserMembership] has recorded is listed, and
    removing it by the [idx] returned undoes the addition.  After the
    addition, [getAllUserMemberships] returns the user's earlier
    memberships followed by the new pair (a pair added twice is listed
    twice); and when no earlier row has the [idx], [deleteUserMembership]
    on it returns and leaves the table of memberships as it was before the
    addition. *)
Theorem addUserMembership_then_list_and_delete
    (s s1 : Store) (userIdx groupIdx idx : Z) :
  addUserMembership more_schema userIdx groupIdx s = (Ok idx, s1) ->
  getAllUserMemberships userIdx s1
  = (Ok (map rowToUserMembership (rows_of_user userIdx (more s))
         ++ [mkUserMembership userIdx groupIdx]),
     issuedS SqlSelectUserMemberships s1) /\
  ((forall r, In r (user_memberships (more s)) -> um_idx r <> idx) ->
   fst (deleteUserMembership idx s1) = Ok idx /\
   user_memberships (more (snd (deleteUserMembership idx s1)))
   = user_memberships (more s)).
Proof.
  intros Hadd.
  assert (user_memberships (more s1)
          = user_memberships (more s)
            ++ [mkUserMembershipRow idx userIdx groupIdx]) as Hrows.
  { revert Hadd. unfold addUserMembership. rewrite bindS_run, queryS_run.
    destruct (user_memberships_constraints more_schema _ _ _);
      [|discriminate].
    unfold retS. intros E. inversion E. reflexivity. }
  split.
  - rewrite getAllUserMemberships_run. unfold rows_of_user.
    rewrite Hrows, filter_app. cbn [filter um_user_idx].
    rewrite Z.eqb_refl.
    destruct (filter (fun r => um_user_idx r =? userIdx)
                (user_memberships (more s))) as [|r l];
      [reflexivity|].
    cbn [app map]. rewrite map_app. reflexivity.
  - intros Hfresh. unfold deleteUserMembership.
    rewrite bindS_run, queryS_run. cbn [more]. rewrite Hrows, !filter_app.
    cbn [filter um_idx]. rewrite Z.eqb_refl. cbn [negb].
    rewrite (@filter_none _ (fun r => um_idx r =? idx)
               (user_memberships (more s)))
      by (intros r Hr; apply Z.eqb_neq, Hfresh, Hr).
    cbn [app map fst snd more user_memberships set_user_memberships].
    split; [reflexivity|]. rewrite app_nil_r.
    clear Hrows Hadd. induction (user_memberships (more s)) as [|r l IH];
      [reflexivity|].
    simpl.
    assert ((um_idx r =? idx) = false) as ->
      by (apply Z.eqb_neq, Hfresh; left; reflexivity).
    simpl. f_equal. apply IH. intros x Hx. apply Hfresh. right. exact Hx.
Qed.

(** The loop of [getUserReachableGroups] over a group graph that is read
    without effect. *)
Lemma for_of_reachable (reach : Z -> list Z)
    (memberships : list UserMembership) (s : Store) :
  (forall g st, getGroupReachableArray g st = (Ok (reach g), st)) ->
  forall groupSet,
    for_of memberships
      (fun userMembership groupSet =>
         reachableGroups <-
           getGroupReachableArray (membership_groupIdx userMembership) ;;
         retS (fold_left (fun set gi => Set_add gi set) reachableGroups
                 groupSet))
      groupSet s
    = (Ok (fold_left
             (fun set userMembership =>
                fold_left (fun set gi => Set_add gi set)
                  (reach (membership_groupIdx userMembership)) set)
             memberships groupSet),
       s).
Proof.
  intros Hpure. induction memberships as [|m l IH]; intros groupSet;
    [reflexivity|].
  cbn [for_of fold_left]. rewrite bindS_run, bindS_run, Hpure.
  unfold retS at 1. apply IH.
Qed.

Lemma add_all_reachable (reach : Z -> list Z)
    (memberships : list UserMembership) (set : list Z) :
  let set' :=
    fold_left
      (fun set userMembership =>
         fold_left (fun set gi => Set_add gi set)
           (reach (membership_groupIdx userMembership)) set)
      memberships set in
  (NoDup set -> NoDup set') /\
  (forall x,
      In x set' <->
      (exists m, In m memberships /\ In x (reach (membership_groupIdx m)))
      \/ In x set).
Proof.
  revert set. induction memberships as [|m l IH]; intros set;
    cbn [fold_left].
  - split; [auto|]. intros x. split; [auto|].
    intros [(m & [] & _)|H]; exact H.
  - destruct (add_all (reach (membership_groupIdx m)) set) as [Hnd1 Hin1].
    destruct (IH (fold_left (fun set gi => Set_add gi set)
                    (reach (membership_groupIdx m)) set)) as [Hnd Hin].
    split; [intros Hset; apply Hnd, Hnd1, Hset|].
    intros x. rewrite Hin, Hin1. split.
    + intros [(m' & Hm' & Hx)|[Hx|Hx]].
      * left. exists m'. split; [right; exact Hm' | exact Hx].
      * left. exists m. split; [left; reflexivity | exact Hx].
      * right. exact Hx.
    + intros [(m' & [<-|Hm'] & Hx)|Hx].
      * right. left. exact Hx.
      * left. exists m'. split; assumption.
      * right. right. exact Hx.
Qed.

(** X19.  The groups a user reaches.  Let the group graph be read without
    effect, [reach g] being the array it gives for [g].  For a user without
    membership rows [getUserReachableGroups] throws [NoSuchEntryError].
    Otherwise it returns a set without repetition that holds a group
    exactly when the group is in the array of the group of one of the
    user's membership rows. *)
Theorem getUserReachableGroups_is_the_union
    (reach : Z -> list Z) (s : Store) (userIdx : Z) :
  (forall g st, getGroupReachableArray g st = (Ok (reach g), st)) ->
  match rows_of_user userIdx (more s) with
  | [] =>
      getUserReachableGroups getGroupReachableArray userIdx s
      = (Err NoSuchEntryError, issuedS SqlSelectUserMemberships s)
  | _ :: _ =>
      exists groups,
        getUserReachableGroups getGroupReachableArray userIdx s
        = (Ok groups, issuedS SqlSelectUserMemberships s) /\
        NoDup groups /\
        forall x,
          In x groups <->
          exists r, In r (rows_of_user userIdx (more s)) /\
                    In x (reach (um_group_idx r))
  end.
Proof.
  intros Hpure. unfold getUserReachableGroups.
  rewrite bindS_run, getAllUserMemberships_run.
  destruct (rows_of_user userIdx (more s)) as [|row rows]; [reflexivity|].
  rewrite (for_of_reachable reach _ _ Hpure).
  destruct (add_all_reachable reach
              (map rowToUserMembership (row :: rows)) []) as [Hnd Hin].
  eexists. split; [reflexivity|]. split; [apply Hnd; constructor|].
  intros x. rewrite Hin. split.
  - intros [(m & Hm & Hx)|[]]. apply in_map_iff in Hm.
    destruct Hm as (r & <- & Hr). exists r. split; assumption.
  - intros (r & Hr & Hx). left. exists (rowToUserMembership r).
    split; [apply in_map; exact Hr | exact Hx].
Qed.

End Memberships.

Local Close Scope store_scope.

(* ================================================================== *)
(** ** Further properties: looking accounts up *)

Local Open Scope store_scope.

Section Lookups.

Variable config : Config.
Context {crypto : Crypto}.
Variable posixAccountObjectClass : list string.

Lemma getByUsername_run (s : Store) (login : string) :
  getByUsername login s =
  (match filter (has_username login) (users (dbS s)) with
   | [row] => Ok (rowToUser (select_user_columns row))
   | _ => Err NoSuchEntryError
   end,
   issuedS SqlSelectUserByUsername s).
Proof.
  unfold getByUsername.
  rewrite bindS_run,
    (queryS_read SqlSelectUserByUsername
       (fun t _ =>
          map select_user_columns
            (filter (has_username login) (users (tr_db t))))).
  fold (db (world s)). fold (dbS s).
  destruct (filter (has_username login) (users (dbS s))) as [|row [|row' l]];
    reflexivity.
Qed.

Lemma getByUserIdx_run (s : Store) (userIdx : Z) :
  getByUserIdx userIdx s =
  (match filter (has_idx userIdx) (users (dbS s)) with
   | [row] => Ok (rowToUser (select_user_columns row))
   | _ => Err NoSuchEntryError
   end,
   issuedS SqlSelectUserByIdx s).
Proof.
  unfold getByUserIdx.
  rewrite bindS_run,
    (queryS_read SqlSelectUserByIdx
       (fun t _ =>
          map select_user_columns
            (filter (has_idx userIdx) (users (tr_db t))))).
  fold (db (world s)). fold (dbS s).
  destruct (filter (has_idx userIdx) (users (dbS s))) as [|row [|row' l]];
    reflexivity.
Qed.

(** X20.  [getByUsername] insists on exactly one account.  It returns the
    account when one row has the user name, and throws [NoSuchEntryError]
    both when none has it and when two or more have it; the account it
    returns carries the row's [idx], [username], [name], [uid] and [shell]
    and no preferred language, since the statement does not select that
    column.  [getByUserIdx] does the same by [idx]. *)
Theorem getByUsername_needs_exactly_one
    (s : Store) (login : string) (userIdx : Z) :
  (forall row,
      filter (has_username login) (users (dbS s)) = [row] ->
      getByUsername login s
      = (Ok (mkUser (u_idx row) (Some login) (u_name row) (u_uid row)
               (u_shell row) None),
         issuedS SqlSelectUserByUsername s)) /\
  (List.length (filter (has_username login) (users (dbS s))) <> 1%nat ->
   getByUsername login s
   = (Err NoSuchEntryError, issuedS SqlSelectUserByUsername s)) /\
  (forall row,
      filter (has_idx userIdx) (users (dbS s)) = [row] ->
      getByUserIdx userIdx s
      = (Ok (mkUser userIdx (u_username row) (u_name row) (u_uid row)
               (u_shell row) None),
         issuedS SqlSelectUserByIdx s)) /\
  (List.length (filter (has_idx userIdx) (users (dbS s))) <> 1%nat ->
   getByUserIdx userIdx s
   = (Err NoSuchEntryError, issuedS SqlSelectUserByIdx s)).
Proof.
  split; [|split; [|split]].
  - intros row Hrows. rewrite getByUsername_run, Hrows.
    assert (has_username login row = true) as Hrow.
    { assert (In row (filter (has_username login) (users (dbS s)))) as Hin
        by (rewrite Hrows; left; reflexivity).
      apply filter_In in Hin. tauto. }
    unfold has_username in Hrow. unfold rowToUser, select_user_columns.
    cbn [row_idx row_username row_name row_uid row_shell
         row_preferred_language].
    destruct (u_username row) as [n|]; [|discriminate].
    apply String.eqb_eq in Hrow. subst n. reflexivity.
  - intros Hlen. rewrite getByUsername_run.
    destruct (filter (has_username login) (users (dbS s)))
      as [|row [|row' l]]; try reflexivity.
    exfalso. apply Hlen. reflexivity.
  - intros row Hrows. rewrite getByUserIdx_run, Hrows.
    assert (has_idx userIdx row = true) as Hrow.
    { assert (In row (filter (has_idx userIdx) (users (dbS s)))) as Hin
        by (rewrite Hrows; left; reflexivity).
      apply filter_In in Hin. tauto. }
    unfold has_idx in Hrow. apply Z.eqb_eq in Hrow. subst userIdx.
    reflexivity.
  - intros Hlen. rewrite getByUserIdx_run.
    destruct (filter (has_idx userIdx) (users (dbS s)))
      as [|row [|row' l]]; try reflexivity.
    exfalso. apply Hlen. reflexivity.
Qed.

(** X21.  The entry of one account is the entry the directory has for it.
    When [getByUsernameAsPosixAccount] returns, no table has changed, the
    entry is among those of the directory of the table, and it names the
    user; when the one account with the user name has no shell it throws
    the conversion error instead. *)
Theorem getByUsernameAsPosixAccount_agrees_with_directory
    (s : Store) (login : string) :
  (forall entry s1,
      getByUsernameAsPosixAccount config posixAccountObjectClass login s
      = (Ok entry, s1) ->
      s1 = issuedS SqlSelectUserByUsername s /\
      In entry
        (posixAccountsOf config posixAccountObjectClass
           (usersDN (this (world s))) (users (dbS s))) /\
      pa_uid (attributes entry) = login /\
      dn entry = ("cn=" ++ login ++ "," ++ usersDN (this (world s)))%string)
  /\
  (forall row,
      filter (has_username login) (users (dbS s)) = [row] ->
      u_shell row = None ->
      fst (getByUsernameAsPosixAccount config posixAccountObjectClass login s)
      = Err (JsError "Cannot convert to posixAccount")).
Proof.
  unfold getByUsernameAsPosixAccount. rewrite bindS_run, getByUsername_run.
  split.
  - intros entry s1.
    destruct (filter (has_username login) (users (dbS s)))
      as [|row [|row' l]] eqn:Hrows; try discriminate.
    assert (In row (users (dbS s)) /\ has_username login row = true)
      as [Hin Hrow].
    { assert (In row (filter (has_username login) (users (dbS s)))) as Hf
        by (rewrite Hrows; left; reflexivity).
      apply filter_In in Hf. exact Hf. }
    unfold liftW. cbn [world issuedS more more_issued].
    rewrite userToPosixAccount_posixAccountOf.
    destruct (posixAccountOf config posixAccountObjectClass
                (usersDN (this (world s)))
                (rowToUser (select_user_columns row))) as [e|] eqn:Eentry;
      [|discriminate].
    intros E. inversion E. subst e s1. clear E.
    split; [destruct s; reflexivity|]. split.
    + unfold posixAccountsOf. apply in_flat_map. exists row.
      split; [exact Hin|]. rewrite Eentry. left. reflexivity.
    + revert Eentry. unfold posixAccountOf, rowToUser, select_user_columns.
      cbn [username shell row_username row_shell].
      unfold has_username in Hrow.
      destruct (u_username row) as [n|]; [|discriminate].
      apply String.eqb_eq in Hrow. subst n.
      destruct (u_shell row); [|discriminate].
      intros E. inversion E. split; reflexivity.
  - intros row Hrows Hshell. rewrite Hrows. unfold liftW.
    cbn [world issuedS]. rewrite userToPosixAccount_posixAccountOf.
    unfold posixAccountOf, rowToUser, select_user_columns.
    cbn [username shell row_username row_shell]. rewrite Hshell.
    destruct (u_username row); reflexivity.
Qed.

(** X22.  The shell [changeShell] has set is the one [getShell] reads, and
    an account removed by [delete] is gone: after a [changeShell] that
    returns, [getShell] returns the new shell; after a [delete] that
    returns, [getShell] and [getByUserIdx] on that [idx] and a second
    [delete] all throw [NoSuchEntryError], while the other rows are kept in
    order. *)
Theorem changeShell_and_delete_show_in_lookups
    (w : World) (userIdx : Z) (newShell : string) (m : MoreTables)
    (log : list MoreSql) :
  (forall idx w1,
      changeShell userIdx newShell w = (Ok idx, w1) ->
      idx = userIdx /\
      getShell userIdx (mkStore w1 m log)
      = (Ok (Some newShell), issuedS SqlSelectShell (mkStore w1 m log))) /\
  (forall idx w1,
      delete userIdx w = (Ok idx, w1) ->
      idx = userIdx /\
      users (db w1)
      = filter (fun u => negb (has_idx userIdx u)) (users (db w)) /\
      fst (delete userIdx w1) = Err NoSuchEntryError /\
      fst (getShell userIdx (mkStore w1 m log)) = Err NoSuchEntryError /\
      fst (getByUserIdx userIdx (mkStore w1 m log)) = Err NoSuchEntryError).
Proof.
  assert (forall idx rest,
             returning_idx userIdx (db w) = idx :: rest ->
             idx = userIdx /\
             exists row more_rows,
               filter (has_idx userIdx) (users (db w)) = row :: more_rows)
    as Hfound.
  { unfold returning_idx. intros idx rest E.
    destruct (filter (has_idx userIdx) (users (db w))) as [|row l] eqn:Ef;
      [discriminate|].
    assert (In row (filter (has_idx userIdx) (users (db w)))) as Hin
      by (rewrite Ef; left; reflexivity).
    apply filter_In in Hin. destruct Hin as [_ Hrow].
    unfold has_idx in Hrow. apply Z.eqb_eq in Hrow.
    cbn [map] in E. inversion E. split; [congruence | eauto]. }
  split.
  - intros idx w1. unfold changeShell. rewrite bind_run, query_run.
    cbn [tr tr_db]. fold (db w).
    destruct (returning_idx userIdx (db w)) as [|i rest] eqn:Eret;
      [discriminate|].
    destruct (Hfound i rest eq_refl) as (-> & row & more_rows & Hrows).
    rewrite bind_run. unfold assign_posixAccountsCache, set_cache, ret.
    intros E. inversion E. subst idx w1. clear E.
    split; [reflexivity|]. unfold getShell.
    rewrite bindS_run,
      (queryS_read SqlSelectShell
         (fun t _ => map u_shell (filter (has_idx userIdx) (users (tr_db t))))).
    cbn [world tr tr_db]. rewrite users_update_users.
    rewrite (filter_map_same_key (has_idx userIdx)
               (updated userIdx (set_shell newShell)) (users (db w)))
      by (intros x; apply has_idx_updated; reflexivity).
    rewrite Hrows. cbn [map].
    assert (has_idx userIdx row = true) as Hrow.
    { assert (In row (filter (has_idx userIdx) (users (db w)))) as Hin
        by (rewrite Hrows; left; reflexivity).
      apply filter_In in Hin. tauto. }
    unfold updated at 1. rewrite Hrow. reflexivity.
  - intros idx w1. unfold delete at 1. rewrite bind_run, query_run.
    cbn [tr tr_db]. fold (db w).
    destruct (returning_idx userIdx (db w)) as [|i rest] eqn:Eret;
      [discriminate|].
    destruct (Hfound i rest eq_refl) as (-> & _).
    rewrite bind_run. unfold assign_posixAccountsCache, set_cache, ret.
    intros E. inversion E. subst idx. clear E.
    set (kept := filter (fun u => negb (has_idx userIdx u)) (users (db w))).
    assert (filter (has_idx userIdx) kept = []) as Hgone.
    { apply filter_none. intros x Hx. apply filter_In in Hx.
      destruct Hx as [_ Hx]. destruct (has_idx userIdx x);
        [discriminate | reflexivity]. }
    split; [reflexivity|]. split; [reflexivity|]. split; [|split].
    + unfold delete. rewrite bind_run, query_run.
      cbn [tr tr_db returning_idx users set_users]. fold kept.
      unfold returning_idx. cbn [users set_users]. fold kept.
      rewrite Hgone. reflexivity.
    + unfold getShell.
      rewrite bindS_run,
        (queryS_read SqlSelectShell
           (fun t _ =>
              map u_shell (filter (has_idx userIdx) (users (tr_db t))))).
      cbn [world tr tr_db users set_users]. fold kept. rewrite Hgone.
      reflexivity.
    + rewrite getByUserIdx_run. unfold dbS, db.
      cbn [world tr tr_db users set_users]. fold kept. rewrite Hgone.
      reflexivity.
Qed.

End Lookups.

Local Close Scope store_scope.

(* ================================================================== *)
(** ** The further properties on the sample world *)


Lemma no_user_named_dave :
  forall u, In u (users (db sample_world)) -> has_username "dave" u = false.
Proof. intros u [<-|[<-|[<-|[]]]]; reflexivity. Defined.


(** [create] for a new user [dave] on the sample world returns the [idx]
    4. *)
Lemma create_keeps_uids_distinct_witness :
  fst (create (crypto := toy_crypto) sample_config sample_schema
         ensureHasAccessExclusiveLock_held [] "dave" sample_password "Dave"
         "/bin/sh" ko sample_world) = Ok 4 /\
  exists v,
    uids (users (db (snd (create (crypto := toy_crypto) sample_config
                            sample_schema ensureHasAccessExclusiveLock_held
                            [] "dave" sample_password "Dave" "/bin/sh" ko
                            sample_world))))
    = uids (users (db sample_world)) ++ [v] /\
    minUid (posix sample_config) <= v /\
    ~ In v (uids (users (db sample_world))).
Proof.
  split; [reflexivity|].
  exact (proj1
           (@create_keeps_uids_distinct sample_config toy_crypto sample_schema
              ensureHasAccessExclusiveLock_held sample_world [] "dave"
              sample_password "Dave" "/bin/sh" ko 4
              (snd (create (crypto := toy_crypto) sample_config sample_schema
                      ensureHasAccessExclusiveLock_held [] "dave"
                      sample_password "Dave" "/bin/sh" ko sample_world))
              eq_refl)).
Defined.

Lemma create_then_authenticate_witness :
  default_activated sample_schema = true /\
  argon2_verify (Crypto := toy_crypto) (toy_argon2_hash [] sample_password)
    sample_password = Ok true /\
  exists w'',
    authenticate (crypto := toy_crypto) [5%N] "dave" sample_password
      (snd (create (crypto := toy_crypto) sample_config sample_schema
              ensureHasAccessExclusiveLock_held [] "dave" sample_password
              "Dave" "/bin/sh" ko sample_world))
    = (Ok 4, w'').
Proof.
  split; [reflexivity|]. split; [reflexivity|].
  exact (@create_then_authenticate sample_config toy_crypto sample_schema
           ensureHasAccessExclusiveLock_held sample_world [] [5%N] "dave"
           sample_password "Dave" "/bin/sh" ko 4
           (snd (create (crypto := toy_crypto) sample_config sample_schema
                   ensureHasAccessExclusiveLock_held [] "dave"
                   sample_password "Dave" "/bin/sh" ko sample_world))
           (mkPhcObject "argon2i" None None)
           eq_refl no_user_named_dave eq_refl eq_refl eq_refl eq_refl).
Defined.

Lemma legacy_migration_happens_once_witness :
  filter (has_username "alice") (users (db sample_world)) = [alice] /\
  exists w1 w2,
    authenticate (crypto := toy_crypto) [9%N] "alice" sample_password
      sample_world = (Ok 1, w1) /\
    authenticate (crypto := toy_crypto) [8%N] "alice" sample_password w1
    = (Ok 1, w2) /\
    tr_issued (tr w2)
    = tr_issued (tr w1)
      ++ [SqlSelectUserForAuthentication; SqlUpdateLastLoginAt] /\
    map u_password_digest (users (db w2))
    = map u_password_digest (users (db w1)).
Proof.
  split; [reflexivity|].
  exact (@legacy_migration_happens_once toy_crypto sample_world [9%N] [8%N]
           "alice" sample_password alice []
           (mkPhcObject "mssql-sha1" (Some [7%N])
              (Some [112; 0; 119; 0; 7]%N))
           (mkPhcObject "argon2i" None None)
           (sha1 (Crypto := toy_crypto)) [7%N] [112; 0; 119; 0; 7]%N
           eq_refl eq_refl eq_refl eq_refl eq_refl eq_refl eq_refl eq_refl
           eq_refl eq_refl).
Defined.

Lemma deactivate_then_authenticate_witness :
  filter (has_username "alice") (users (db sample_world)) = [alice] /\
  forall salt password,
    authenticate (crypto := toy_crypto) salt "alice" password
      (snd (deactivate 1 sample_world))
    = (Err NotActivatedError,
       issued SqlSelectUserForAuthentication (snd (deactivate 1 sample_world))).
Proof.
  split; [reflexivity|].
  exact (proj1
           (@deactivate_then_authenticate toy_crypto sample_world 1 "alice"
              alice [] eq_refl eq_refl)).
Defined.





Lemma no_token_of_user_3 :
  forall r, In r (password_change_tokens (db sample_world)) ->
            t_user_idx r <> 3 /\ t_token r <> toString_hex [171%N].
Proof.
  intros r [<-|[<-|[]]]; split; discriminate.
Defined.

Lemma first_token_has_default_resend_count_witness :
  let w1 :=
    snd (generatePasswordChangeToken sample_schema [171%N] 600 3
           sample_world) in
  getResendCount "ab" w1
  = (Ok (default_resend_count sample_schema),
     issued SqlSelectResendCount w1).
Proof.
  exact (@first_token_has_default_resend_count sample_schema sample_world
           [171%N] 600 3 no_token_of_user_3).
Defined.

Lemma removeToken_uses_the_token_up_witness :
  fst (removeToken "aa" sample_store) = Ok 1 /\
  getUserIdxByPasswordToken "aa" (snd (removeToken "aa" sample_store))
  = (Err NoSuchEntryError,
     issuedS SqlSelectTokenUser (snd (removeToken "aa" sample_store))).
Proof.
  split; [reflexivity|].
  exact (proj1 (proj2 (@removeToken_uses_the_token_up sample_store "aa"))).
Defined.

Lemma toString_hex_round_trip_witness :
  Forall (fun x => (x < 256)%N) [171; 0; 255]%N /\
  from_hex (toString_hex [171; 0; 255]%N) = [171; 0; 255]%N.
Proof.
  assert (Forall (fun x => (x < 256)%N) [171; 0; 255]%N) as Hbytes
    by (repeat (constructor; [reflexivity|]); constructor).
  split; [exact Hbytes|].
  exact (proj1 (@toString_hex_round_trip [171; 0; 255]%N Hbytes)).
Defined.

Lemma nullAppendedPassword_ascii_is_utf16le_witness :
  Forall (fun c => (c < 128)%N) sample_password /\
  nullAppendedPassword sample_password = [112; 0; 119; 0]%N.
Proof.
  assert (Forall (fun c => (c < 128)%N) sample_password) as Hascii
    by (repeat (constructor; [reflexivity|]); constructor).
  split; [exact Hascii|].
  exact (@nullAppendedPassword_ascii_is_utf16le sample_password Hascii).
Defined.

Lemma no_host_9 :
  forall h, In h (hosts (dbS sample_store)) -> hr_idx h <> 9.
Proof. intros h [<-|[<-|[]]]; discriminate. Defined.

Lemma host_updates_need_the_row_witness :
  deleteHost 9 sample_store
  = (Err NoSuchEntryError, issuedS SqlDeleteHost sample_store) /\
  addHostToGroup sample_more_schema 9 1 sample_store
  = (Err NoSuchEntryError, issuedS SqlUpdateHostGroup sample_store).
Proof.
  exact (proj1
           (@host_updates_need_the_row sample_more_schema sample_store 9 1 7)
           no_host_9).
Defined.



(** The host [open] is put in the group [free], which is then given the
    required permission 5: the user 2 is refused. *)
Lemma grouped_host_requires_the_permission_witness :
  let s1 := snd (addHostToGroup sample_more_schema 1 2 sample_store) in
  let s2 := snd (setHostGroupPermission sample_more_schema 2 5 s1) in
  let s3 := snd (getHostByInet before_slash "10.0.0.1" s2) in
  fst (getHostByInet before_slash "10.0.0.1" s2)
  = Ok (mkHost 1 "open" "10.0.0.1" (Some 2)) /\
  authorizeUserByHost only_user_one 2 (mkHost 1 "open" "10.0.0.1" (Some 2))
    (world s3)
  = (Err AuthorizationError, issued SqlSelectHostGroup (world s3)).
Proof.
  split; [reflexivity|].
  exact (proj2
           (proj2
              (@grouped_host_requires_the_permission sample_more_schema
                 before_slash only_user_one sample_store
                 (snd (addHostToGroup sample_more_schema 1 2 sample_store))
                 (snd (setHostGroupPermission sample_more_schema 2 5
                         (snd (addHostToGroup sample_more_schema 1 2
                                 sample_store))))
                 (snd (getHostByInet before_slash "10.0.0.1"
                         (snd (setHostGroupPermission sample_more_schema 2 5
                                 (snd (addHostToGroup sample_more_schema 1 2
                                         sample_store))))))
                 1 2 5 "10.0.0.1" (mkHost 1 "open" "10.0.0.1" (Some 2))
                 eq_refl eq_refl eq_refl eq_refl))
           2 false _ eq_refl).
Defined.

Lemma no_group_99 :
  forall g, In g (host_groups (db sample_world)) -> gr_idx g <> 99.
Proof. intros g [<-|[<-|[]]]; discriminate. Defined.

Lemma authorizeUserByHost_missing_group_witness :
  authorizeUserByHost only_user_one 1 (mkHost 5 "lost" "10.0.0.5" (Some 99))
    sample_world
  = (Err NoSuchEntryError, issued SqlSelectHostGroup sample_world).
Proof.
  exact (@authorizeUserByHost_missing_group only_user_one sample_world 1 99
           (mkHost 5 "lost" "10.0.0.5" (Some 99)) eq_refl no_group_99).
Defined.

Lemma addUserMembership_then_list_and_delete_witness :
  fst (addUserMembership sample_more_schema 2 20 sample_store) = Ok 4 /\
  fst (getAllUserMemberships 2
         (snd (addUserMembership sample_more_schema 2 20 sample_store)))
  = Ok [mkUserMembership 2 10; mkUserMembership 2 20].
Proof.
  split; [reflexivity|].
  exact (f_equal fst
           (proj1
              (@addUserMembership_then_list_and_delete sample_more_schema
                 sample_store
                 (snd (addUserMembership sample_more_schema 2 20 sample_store))
                 2 20 4 eq_refl))).
Defined.

(** The user 1 is in the groups 10 and 20 and reaches 10, 20 and 30. *)
Lemma getUserReachableGroups_is_the_union_witness :
  exists groups,
    getUserReachableGroups sample_getGroupReachableArray 1 sample_store
    = (Ok groups, issuedS SqlSelectUserMemberships sample_store) /\
    NoDup groups /\
    forall x,
      In x groups <->
      exists r, In r (rows_of_user 1 (more sample_store)) /\
                In x (sample_reachable (um_group_idx r)).
Proof.
  exact (@getUserReachableGroups_is_the_union sample_getGroupReachableArray
           sample_reachable sample_store 1 (fun g st => eq_refl)).
Defined.

Lemma getByUsername_needs_exactly_one_witness :
  filter (has_username "alice") (users (dbS sample_store)) = [alice] /\
  getByUsername "alice" sample_store
  = (Ok (mkUser 1 (Some "alice") "Alice" (Some 10) (Some "/bin/sh") None),
     issuedS SqlSelectUserByUsername sample_store).
Proof.
  split; [reflexivity|].
  exact (proj1 (@getByUsername_needs_exactly_one sample_store "alice" 1)
           alice eq_refl).
Defined.

Lemma getByUsernameAsPosixAccount_agrees_with_directory_witness :
  exists entry,
    fst (getByUsernameAsPosixAccount sample_config ["posixAccount"] "alice"
           sample_store) = Ok entry /\
    In entry
      (posixAccountsOf sample_config ["posixAccount"]
         (usersDN (this (world sample_store))) (users (dbS sample_store))).
Proof.
  eexists. split; [reflexivity|].
  exact (proj1
           (proj2
              (proj1
                 (@getByUsernameAsPosixAccount_agrees_with_directory
                    sample_config ["posixAccount"] sample_store "alice")
                 _ _ eq_refl))).
Defined.

Lemma changeShell_and_delete_show_in_lookups_witness :
  fst (changeShell 2 "/bin/zsh" sample_world) = Ok 2 /\
  getShell 2
    (mkStore (snd (changeShell 2 "/bin/zsh" sample_world)) sample_more_tables
       [])
  = (Ok (Some "/bin/zsh"),
     issuedS SqlSelectShell
       (mkStore (snd (changeShell 2 "/bin/zsh" sample_world))
          sample_more_tables [])).
Proof.
  split; [reflexivity|].
  exact (proj2
           (proj1
              (@changeShell_and_delete_show_in_lookups sample_world 2
                 "/bin/zsh" sample_more_tables [])
              2 (snd (changeShell 2 "/bin/zsh" sample_world)) eq_refl)).
Defined.
